(** * latticelm: the trainer of [latticelm.h], embedded and verified

    The class [latticelm::LatticeLM] drives a blocked Gibbs sampler over
    weighted finite-state transducers.  This development embeds the class
    member by member: its fields become a record, its member functions
    become computations in a small state/trace/error monad, and the
    collaborators declared in other headers (PyLM, LexFst, the WFST
    library, the sampler) are taken as parameters of a section.

    Numbers.  [unsigned] and [int] are 32-bit and modelled in [Z] with the
    wrap-around written out.  [double] is modelled by exact rationals [Q];
    rounding of floating-point results is not modelled. *)

From Stdlib Require Import ZArith QArith Qminmax List String Ascii Lia DecimalString.
From stdpp Require Import base gmap strings list.

Local Open Scope Z_scope.

(** ** Machine integers *)

Module Machine.

Definition modulus : Z := 2 ^ 32.
Definition half_modulus : Z := 2 ^ 31.

(** Conversion to [unsigned]: reduction modulo 2^32. *)
Definition to_unsigned (x : Z) : Z := x mod modulus.

(** Conversion to [int]: two's complement reading of the low 32 bits. *)
Definition to_int (x : Z) : Z :=
  let r := x mod modulus in
  if r <? half_modulus then r else r - modulus.

Definition is_unsigned (x : Z) : Prop := 0 <= x < modulus.

End Machine.

(** ** Doubles as rationals *)

(** [std::max(a, b)] returns [b] when [a < b] and [a] otherwise. *)
Definition std_max (a b : Q) : Q := if Qlt_le_dec a b then b else a.

(** [x != 0] on doubles. *)
Definition nonzero (x : Q) : bool := negb (Qeq_bool x 0).

(** ** The annealing schedule of [train] (lines 305-308)

    [annealLevel_ = (int)(iter+annealStepLength_-1)/annealStepLength_;]
    The cast binds tighter than the division: the unsigned sum is
    converted to [int], and for the division by an [unsigned] it is
    converted back; the quotient is an unsigned integer, stored in the
    double.  A zero divisor is undefined behaviour ([None]). *)

Definition annealQuotient (iter annealStepLength : Z) : option Z :=
  let sum := Machine.to_unsigned (iter + annealStepLength - 1) in
  let casted := Machine.to_int sum in
  if annealStepLength =? 0 then None
  else Some (Machine.to_unsigned casted / annealStepLength).

(** [if(annealLevel_ != 0) annealLevel_ = 1.0/max(1.0,numAnnealSteps_-annealLevel_);] *)
Definition annealFromQuotient (numAnnealSteps : Z) (q : Z) : Q :=
  let level := inject_Z q in
  if nonzero level
  then 1 / std_max 1 (inject_Z numAnnealSteps - level)
  else level.

Definition annealLevel (iter numAnnealSteps annealStepLength : Z) : option Q :=
  match annealQuotient iter annealStepLength with
  | None => None
  | Some q => Some (annealFromQuotient numAnnealSteps q)
  end.



(** ** Identifiers and probabilities

    [WordId] and [CharId] are [int]; [LMProb] is [double]. *)

Abbreviation WordId := Z (only parsing).
Abbreviation CharId := Z (only parsing).
Abbreviation LMProb := Q (only parsing).

(** ** Vector indexing

    [v[i]] on a [std::vector] with an index outside [0, size) is undefined
    behaviour; [nthZ] returns [None] there.  A negative [int] index is
    converted to a huge [size_t] and is out of range as well. *)

Definition nthZ {A : Type} (v : list A) (i : Z) : option A :=
  if i <? 0 then None else v !! Z.to_nat i.

Definition sizeZ {A : Type} (v : list A) : Z := Z.of_nat (List.length v).

(** ** Transducers as the WFST library stores them

    A [VectorFst<StdArc>] is a start state and a vector of states; each
    state has a final weight and a vector of outgoing arcs.  A tropical
    weight is a number; the semiring's [Zero] (a non-final state) is
    [None] in [st_final]. *)

Record StdArc : Type := mkArc {
  ilabel : Z;
  olabel : Z;
  weight : Q;
  nextstate : Z
}.

Record FstState : Type := mkFstState {
  st_final : option Q;
  st_arcs : list StdArc
}.

Record VectorFst : Type := mkFst {
  fst_start : Z;
  fst_states : list FstState
}.

(** [kNoStateId] *)
Definition kNoStateId : Z := -1.

Definition emptyFst : VectorFst := mkFst kNoStateId [].

Definition NumStates (f : VectorFst) : Z := sizeZ (fst_states f).

Definition AddState (f : VectorFst) : VectorFst :=
  mkFst (fst_start f) (fst_states f ++ [mkFstState None []]).

Definition SetStart (f : VectorFst) (s : Z) : VectorFst :=
  mkFst s (fst_states f).

Definition AddArc (f : VectorFst) (s : Z) (a : StdArc) : VectorFst :=
  mkFst (fst_start f)
        (alter (fun st => mkFstState (st_final st) (st_arcs st ++ [a])) (Z.to_nat s) (fst_states f)).

Definition SetFinal (f : VectorFst) (s : Z) (w : Q) : VectorFst :=
  mkFst (fst_start f)
        (alter (fun st => mkFstState (Some w) (st_arcs st)) (Z.to_nat s) (fst_states f)).

(** ** Reading a line token by token

    [iss >> str] skips white space of the C locale and reads up to the
    next white space. *)

Definition isspace (c : ascii) : bool :=
  let n := nat_of_ascii c in
  ((n =? 32) || ((9 <=? n) && (n <=? 13)))%nat.

(** [tokensFrom cur s]: [cur] is the token being read, if any. *)
Fixpoint tokensFrom (cur : option string) (s : string) : list string :=
  match s with
  | EmptyString => match cur with Some t => [t] | None => [] end
  | String c rest =>
      if isspace c
      then match cur with
           | Some t => t :: tokensFrom None rest
           | None => tokensFrom None rest
           end
      else tokensFrom (Some (match cur with
                             | Some t => t +:+ String c EmptyString
                             | None => String c EmptyString
                             end)) rest
  end.

Definition tokens (line : string) : list string := tokensFrom None line.

(** ** Output sent to a stream

    One [<<] chain is a list of typed pieces; no number formatting is
    needed to say what was written. *)

Inductive Piece : Type :=
| Str (s : string)
| Chr (c : ascii)
| Uns (n : Z)
| Int (n : Z)
| Dbl (x : Q)
| Elapsed
| Endl.

(** Decimal rendering of an [int] by [ostream << int]. *)
Definition decimal (n : Z) : string := NilEmpty.string_of_int (Z.to_int n).

(** [oss << fileName << '.' << iter] *)
Definition withSuffix (fileName : string) (iter : Z) : string :=
  fileName +:+ "." +:+ decimal iter.

(** ** What the process does to the outside world

    The trace records, in order, the text sent to [cerr], the calls into
    the language models, the transducers read, scaled, sampled and
    written, and the files written. *)

Inductive Lm : Type := KnownLm | UnkLm.

Inductive Event : Type :=
| Cerr (ps : list Piece)
| EvRemoveCustomers (lm : Lm) (ws : list Z)
| EvCalcSentence (lm : Lm) (ws : list Z) (bases : list LMProb) (doAdd : bool)
| EvSampleParameters (lm : Lm)
| EvTrim (lm : Lm) (returnRemap : bool)
| EvFstRead (file : string)
| EvMap (scale : Q) (file : string)
| EvPrune (threshold : Q)
| EvFstWrite (file : string) (f : VectorFst)
| EvSampGen (f : VectorFst) (nbest : Z) (anneal : Q)
| EvLmPrint (file : string) (lm : Lm) (symbols : list string) (bases : list LMProb)
| EvFileWrite (file : string) (lines : list string).

(** How a member function can end. *)

Inductive Outcome (A : Type) : Type :=
| Ok (a : A)
| Exit (code : Z)
| Throw (msg : string)
| Undefined
| Diverge.

Arguments Ok {A} a.
Arguments Exit {A} code.
Arguments Throw {A} msg.
Arguments Undefined {A}.
Arguments Diverge {A}.

(** [v.resize(n, x)] *)
Definition resize {A : Type} (n : nat) (x : A) (v : list A) : list A :=
  take n v ++ replicate (n - List.length v) x.

(** [s.substr(1)]; throws [std::out_of_range] on the empty string. *)
Definition substr1 (s : string) : option string :=
  match s with
  | EmptyString => None
  | String _ rest => Some rest
  end.

(** [&v[n]]: the elements from position [n] on. *)
Definition fromPos {A : Type} (v : list A) (n : Z) : option (list A) :=
  if (n <? 0) || (sizeZ v <? n) then None else Some (drop (Z.to_nat n) v).

Definition tab : string := String (ascii_of_nat 9) EmptyString.

Fixpoint joinWith (sep : string) (l : list string) : string :=
  match l with
  | [] => EmptyString
  | [x] => x
  | x :: rest => x +:+ sep +:+ joinWith sep rest
  end.

(** ** The trainer *)

Section Trainer.

(** *** Collaborators declared in other headers

    [pylm.h]: a hierarchical Pitman-Yor language model.  Its routines are
    taken to return normally; seating draws from the process-wide
    generator, which is threaded through. *)

Variable PyLM : Type.
Variable Rng : Type.
Variable PyLM_new : Z -> PyLM.
Variable PyLM_calcSentence : PyLM -> list Z -> list LMProb -> bool -> Rng -> LMProb * PyLM * Rng.
Variable PyLM_removeCustomers : PyLM -> list Z -> Rng -> PyLM * Rng.
Variable PyLM_getBasePositions : PyLM -> list Z.
Variable PyLM_sampleParameters : PyLM -> Rng -> PyLM * Rng.
Variable PyLM_trim : PyLM -> bool -> list WordId * PyLM.
Variable PyLM_getVocabSize : PyLM -> Z.
Variable PyLM_size : PyLM -> Z.
Variable PyLM_getN : PyLM -> Z.
Variable PyLM_getStrength : PyLM -> Z -> Q.
Variable PyLM_getDiscount : PyLM -> Z -> Q.

(** [lexfst.h]: the lexicon transducer. *)

Variable LexFst : Type.
Variable LexFst_new : LexFst.
Variable LexFst_setSeparator : LexFst -> string -> LexFst.
Variable LexFst_load : LexFst -> string -> LexFst.
Variable LexFst_setPermSymbols : LexFst -> list string -> LexFst.
Variable LexFst_initializeArcs : LexFst -> LexFst.
Variable LexFst_getNumChars : LexFst -> Z.
Variable LexFst_getWords : LexFst -> list (list CharId).
Variable LexFst_getPermSymbols : LexFst -> list string.
Variable LexFst_getSymbols : LexFst -> list string.
Variable LexFst_addWord : LexFst -> list CharId -> LexFst.
Variable LexFst_parseSample : LexFst -> VectorFst -> list WordId * LexFst.

(** The WFST library, [pylmfst.h], [weighted-mapper.h] and [sampgen.h].
    [ComposeFst] and [PylmFst] are expanded on demand; [LazyFst] is the
    type of such views and [expand] is the copy into a [VectorFst]. *)

Variable LazyFst : Type.
Variable ComposeLex : VectorFst -> LexFst -> LazyFst.
Variable PylmFst : PyLM -> PyLM -> Z -> LazyFst.
Variable ComposePhi : LazyFst -> LazyFst -> LazyFst.
Variable expand : LazyFst -> VectorFst.
Variable Prune : LazyFst -> Q -> VectorFst.
Variable SampGen : VectorFst -> Z -> Q -> Rng -> VectorFst * Rng.
Variable WeightedMap : Q -> VectorFst -> VectorFst.
Variable ArcSortOLabel : VectorFst -> VectorFst.

(** The environment of the process: the lines [getline] yields for a file
    name ([None] when the stream cannot be opened), the transducer
    [VectorFst::Read] yields, the C library's number parsers and [exp]. *)

Variable fileLines : string -> option (list string).
Variable fstRead : string -> option VectorFst.
Variable atoi : string -> Z.
Variable atof : string -> Q.
Variable exp : Q -> Q.

(** *** The members of [LatticeLM] *)

Definition INPUT_FST : Z := 0.
Definition INPUT_TEXT : Z := 1.
Definition MAX_WORD_LEN : nat := 1000.

Record LatticeLM : Type := mkLatticeLM {
  numBurnIn_ : Z;  (* the number of burn in (20) *)
  numAnnealSteps_ : Z;  (* the number of annealing steps (5) *)
  annealStepLength_ : Z;  (* the number of steps to anneal for (3) *)
  numSamples_ : Z;  (* the number of samples to take (100) *)
  sampleRate_ : Z;  (* the number of iterations between samples (1) *)
  trimRate_ : Z;  (* the number of iterations between trims (1) *)
  pruneThreshold_ : Q;  (* prune paths this far away (0, no pruning) *)
  amScale_ : Q;  (* how much to scale the acoustic model (0.2) *)
  knownN_ : Z;  (* the n-gram size of the known word LM (3) *)
  unkN_ : Z;  (* the n-gram size of the unk LM (3) *)
  inputFileList_ : option string;  (* the list of files to be input *)
  inputFiles_ : list string;  (* the files to be used as input *)
  inputType_ : Z;  (* the type of input to use *)
  cacheInput_ : bool;
  inputFsts_ : list (option VectorFst);  (* the FSTs, if cached; a null pointer is [None] *)
  symbolFile_ : option string;  (* a file containing the symbols *)
  prefix_ : string;  (* the prefix of the output *)
  separator_ : string;  (* the character to use to separate the characters *)
  mySamples_ : list Z;  (* which samples to use *)
  histories_ : list (list WordId);
  unkSymbolSize_ : Z;
  annealLevel_ : Q;
  lexFst_ : option LexFst;
  knownLm_ : option PyLM;
  unkLm_ : option PyLM;
  unkBases_ : list LMProb;
  latticeLikelihood_ : Q;  (* the likelihood of the acoustic model *)
  knownLikelihood_ : Q;  (* the likelihood of words generated by the LM *)
  unkLikelihood_ : Q;  (* the likelihood of words generated by the unknown model *)
  prng_ : Rng  (* not a member: the process-wide generator the collaborators draw from *)
}.

(** Assignment to one member. *)

Definition set_numBurnIn_ (v : Z) (s : LatticeLM) : LatticeLM :=
  mkLatticeLM v (numAnnealSteps_ s) (annealStepLength_ s) (numSamples_ s)
    (sampleRate_ s) (trimRate_ s) (pruneThreshold_ s) (amScale_ s) (knownN_ s)
    (unkN_ s) (inputFileList_ s) (inputFiles_ s) (inputType_ s)
    (cacheInput_ s) (inputFsts_ s) (symbolFile_ s) (prefix_ s) (separator_ s)
    (mySamples_ s) (histories_ s) (unkSymbolSize_ s) (annealLevel_ s)
    (lexFst_ s) (knownLm_ s) (unkLm_ s) (unkBases_ s) (latticeLikelihood_ s)
    (knownLikelihood_ s) (unkLikelihood_ s) (prng_ s).

Definition set_numAnnealSteps_ (v : Z) (s : LatticeLM) : LatticeLM :=
  mkLatticeLM (numBurnIn_ s) v (annealStepLength_ s) (numSamples_ s)
    (sampleRate_ s) (trimRate_ s) (pruneThreshold_ s) (amScale_ s) (knownN_ s)
    (unkN_ s) (inputFileList_ s) (inputFiles_ s) (inputType_ s)
    (cacheInput_ s) (inputFsts_ s) (symbolFile_ s) (prefix_ s) (separator_ s)
    (mySamples_ s) (histories_ s) (unkSymbolSize_ s) (annealLevel_ s)
    (lexFst_ s) (knownLm_ s) (unkLm_ s) (unkBases_ s) (latticeLikelihood_ s)
    (knownLikelihood_ s) (unkLikelihood_ s) (prng_ s).

Definition set_annealStepLength_ (v : Z) (s : LatticeLM) : LatticeLM :=
  mkLatticeLM (numBurnIn_ s) (numAnnealSteps_ s) v (numSamples_ s)
    (sampleRate_ s) (trimRate_ s) (pruneThreshold_ s) (amScale_ s) (knownN_ s)
    (unkN_ s) (inputFileList_ s) (inputFiles_ s) (inputType_ s)
    (cacheInput_ s) (inputFsts_ s) (symbolFile_ s) (prefix_ s) (separator_ s)
    (mySamples_ s) (histories_ s) (unkSymbolSize_ s) (annealLevel_ s)
    (lexFst_ s) (knownLm_ s) (unkLm_ s) (unkBases_ s) (latticeLikelihood_ s)
    (knownLikelihood_ s) (unkLikelihood_ s) (prng_ s).

Definition set_numSamples_ (v : Z) (s : LatticeLM) : LatticeLM :=
  mkLatticeLM (numBurnIn_ s) (numAnnealSteps_ s) (annealStepLength_ s) v
    (sampleRate_ s) (trimRate_ s) (pruneThreshold_ s) (amScale_ s) (knownN_ s)
    (unkN_ s) (inputFileList_ s) (inputFiles_ s) (inputType_ s)
    (cacheInput_ s) (inputFsts_ s) (symbolFile_ s) (prefix_ s) (separator_ s)
    (mySamples_ s) (histories_ s) (unkSymbolSize_ s) (annealLevel_ s)
    (lexFst_ s) (knownLm_ s) (unkLm_ s) (unkBases_ s) (latticeLikelihood_ s)
    (knownLikelihood_ s) (unkLikelihood_ s) (prng_ s).

Definition set_sampleRate_ (v : Z) (s : LatticeLM) : LatticeLM :=
  mkLatticeLM (numBurnIn_ s) (numAnnealSteps_ s) (annealStepLength_ s)
    (numSamples_ s) v (trimRate_ s) (pruneThreshold_ s) (amScale_ s)
    (knownN_ s) (unkN_ s) (inputFileList_ s) (inputFiles_ s) (inputType_ s)
    (cacheInput_ s) (inputFsts_ s) (symbolFile_ s) (prefix_ s) (separator_ s)
    (mySamples_ s) (histories_ s) (unkSymbolSize_ s) (annealLevel_ s)
    (lexFst_ s) (knownLm_ s) (unkLm_ s) (unkBases_ s) (latticeLikelihood_ s)
    (knownLikelihood_ s) (unkLikelihood_ s) (prng_ s).

Definition set_trimRate_ (v : Z) (s : LatticeLM) : LatticeLM :=
  mkLatticeLM (numBurnIn_ s) (numAnnealSteps_ s) (annealStepLength_ s)
    (numSamples_ s) (sampleRate_ s) v (pruneThreshold_ s) (amScale_ s)
    (knownN_ s) (unkN_ s) (inputFileList_ s) (inputFiles_ s) (inputType_ s)
    (cacheInput_ s) (inputFsts_ s) (symbolFile_ s) (prefix_ s) (separator_ s)
    (mySamples_ s) (histories_ s) (unkSymbolSize_ s) (annealLevel_ s)
    (lexFst_ s) (knownLm_ s) (unkLm_ s) (unkBases_ s) (latticeLikelihood_ s)
    (knownLikelihood_ s) (unkLikelihood_ s) (prng_ s).

Definition set_pruneThreshold_ (v : Q) (s : LatticeLM) : LatticeLM :=
  mkLatticeLM (numBurnIn_ s) (numAnnealSteps_ s) (annealStepLength_ s)
    (numSamples_ s) (sampleRate_ s) (trimRate_ s) v (amScale_ s) (knownN_ s)
    (unkN_ s) (inputFileList_ s) (inputFiles_ s) (inputType_ s)
    (cacheInput_ s) (inputFsts_ s) (symbolFile_ s) (prefix_ s) (separator_ s)
    (mySamples_ s) (histories_ s) (unkSymbolSize_ s) (annealLevel_ s)
    (lexFst_ s) (knownLm_ s) (unkLm_ s) (unkBases_ s) (latticeLikelihood_ s)
    (knownLikelihood_ s) (unkLikelihood_ s) (prng_ s).

Definition set_amScale_ (v : Q) (s : LatticeLM) : LatticeLM :=
  mkLatticeLM (numBurnIn_ s) (numAnnealSteps_ s) (annealStepLength_ s)
    (numSamples_ s) (sampleRate_ s) (trimRate_ s) (pruneThreshold_ s) v
    (knownN_ s) (unkN_ s) (inputFileList_ s) (inputFiles_ s) (inputType_ s)
    (cacheInput_ s) (inputFsts_ s) (symbolFile_ s) (prefix_ s) (separator_ s)
    (mySamples_ s) (histories_ s) (unkSymbolSize_ s) (annealLevel_ s)
    (lexFst_ s) (knownLm_ s) (unkLm_ s) (unkBases_ s) (latticeLikelihood_ s)
    (knownLikelihood_ s) (unkLikelihood_ s) (prng_ s).

Definition set_knownN_ (v : Z) (s : LatticeLM) : LatticeLM :=
  mkLatticeLM (numBurnIn_ s) (numAnnealSteps_ s) (annealStepLength_ s)
    (numSamples_ s) (sampleRate_ s) (trimRate_ s) (pruneThreshold_ s)
    (amScale_ s) v (unkN_ s) (inputFileList_ s) (inputFiles_ s) (inputType_ s)
    (cacheInput_ s) (inputFsts_ s) (symbolFile_ s) (prefix_ s) (separator_ s)
    (mySamples_ s) (histories_ s) (unkSymbolSize_ s) (annealLevel_ s)
    (lexFst_ s) (knownLm_ s) (unkLm_ s) (unkBases_ s) (latticeLikelihood_ s)
    (knownLikelihood_ s) (unkLikelihood_ s) (prng_ s).

Definition set_unkN_ (v : Z) (s : LatticeLM) : LatticeLM :=
  mkLatticeLM (numBurnIn_ s) (numAnnealSteps_ s) (annealStepLength_ s)
    (numSamples_ s) (sampleRate_ s) (trimRate_ s) (pruneThreshold_ s)
    (amScale_ s) (knownN_ s) v (inputFileList_ s) (inputFiles_ s)
    (inputType_ s) (cacheInput_ s) (inputFsts_ s) (symbolFile_ s) (prefix_ s)
    (separator_ s) (mySamples_ s) (histories_ s) (unkSymbolSize_ s)
    (annealLevel_ s) (lexFst_ s) (knownLm_ s) (unkLm_ s) (unkBases_ s)
    (latticeLikelihood_ s) (knownLikelihood_ s) (unkLikelihood_ s) (prng_ s).

Definition set_inputFileList_ (v : option string) (s : LatticeLM) : LatticeLM :=
  mkLatticeLM (numBurnIn_ s) (numAnnealSteps_ s) (annealStepLength_ s)
    (numSamples_ s) (sampleRate_ s) (trimRate_ s) (pruneThreshold_ s)
    (amScale_ s) (knownN_ s) (unkN_ s) v (inputFiles_ s) (inputType_ s)
    (cacheInput_ s) (inputFsts_ s) (symbolFile_ s) (prefix_ s) (separator_ s)
    (mySamples_ s) (histories_ s) (unkSymbolSize_ s) (annealLevel_ s)
    (lexFst_ s) (knownLm_ s) (unkLm_ s) (unkBases_ s) (latticeLikelihood_ s)
    (knownLikelihood_ s) (unkLikelihood_ s) (prng_ s).

Definition set_inputFiles_ (v : list string) (s : LatticeLM) : LatticeLM :=
  mkLatticeLM (numBurnIn_ s) (numAnnealSteps_ s) (annealStepLength_ s)
    (numSamples_ s) (sampleRate_ s) (trimRate_ s) (pruneThreshold_ s)
    (amScale_ s) (knownN_ s) (unkN_ s) (inputFileList_ s) v (inputType_ s)
    (cacheInput_ s) (inputFsts_ s) (symbolFile_ s) (prefix_ s) (separator_ s)
    (mySamples_ s) (histories_ s) (unkSymbolSize_ s) (annealLevel_ s)
    (lexFst_ s) (knownLm_ s) (unkLm_ s) (unkBases_ s) (latticeLikelihood_ s)
    (knownLikelihood_ s) (unkLikelihood_ s) (prng_ s).

Definition set_inputType_ (v : Z) (s : LatticeLM) : LatticeLM :=
  mkLatticeLM (numBurnIn_ s) (numAnnealSteps_ s) (annealStepLength_ s)
    (numSamples_ s) (sampleRate_ s) (trimRate_ s) (pruneThreshold_ s)
    (amScale_ s) (knownN_ s) (unkN_ s) (inputFileList_ s) (inputFiles_ s) v
    (cacheInput_ s) (inputFsts_ s) (symbolFile_ s) (prefix_ s) (separator_ s)
    (mySamples_ s) (histories_ s) (unkSymbolSize_ s) (annealLevel_ s)
    (lexFst_ s) (knownLm_ s) (unkLm_ s) (unkBases_ s) (latticeLikelihood_ s)
    (knownLikelihood_ s) (unkLikelihood_ s) (prng_ s).

Definition set_cacheInput_ (v : bool) (s : LatticeLM) : LatticeLM :=
  mkLatticeLM (numBurnIn_ s) (numAnnealSteps_ s) (annealStepLength_ s)
    (numSamples_ s) (sampleRate_ s) (trimRate_ s) (pruneThreshold_ s)
    (amScale_ s) (knownN_ s) (unkN_ s) (inputFileList_ s) (inputFiles_ s)
    (inputType_ s) v (inputFsts_ s) (symbolFile_ s) (prefix_ s) (separator_ s)
    (mySamples_ s) (histories_ s) (unkSymbolSize_ s) (annealLevel_ s)
    (lexFst_ s) (knownLm_ s) (unkLm_ s) (unkBases_ s) (latticeLikelihood_ s)
    (knownLikelihood_ s) (unkLikelihood_ s) (prng_ s).

Definition set_inputFsts_ (v : list (option VectorFst)) (s : LatticeLM) : LatticeLM :=
  mkLatticeLM (numBurnIn_ s) (numAnnealSteps_ s) (annealStepLength_ s)
    (numSamples_ s) (sampleRate_ s) (trimRate_ s) (pruneThreshold_ s)
    (amScale_ s) (knownN_ s) (unkN_ s) (inputFileList_ s) (inputFiles_ s)
    (inputType_ s) (cacheInput_ s) v (symbolFile_ s) (prefix_ s)
    (separator_ s) (mySamples_ s) (histories_ s) (unkSymbolSize_ s)
    (annealLevel_ s) (lexFst_ s) (knownLm_ s) (unkLm_ s) (unkBases_ s)
    (latticeLikelihood_ s) (knownLikelihood_ s) (unkLikelihood_ s) (prng_ s).

Definition set_symbolFile_ (v : option string) (s : LatticeLM) : LatticeLM :=
  mkLatticeLM (numBurnIn_ s) (numAnnealSteps_ s) (annealStepLength_ s)
    (numSamples_ s) (sampleRate_ s) (trimRate_ s) (pruneThreshold_ s)
    (amScale_ s) (knownN_ s) (unkN_ s) (inputFileList_ s) (inputFiles_ s)
    (inputType_ s) (cacheInput_ s) (inputFsts_ s) v (prefix_ s) (separator_ s)
    (mySamples_ s) (histories_ s) (unkSymbolSize_ s) (annealLevel_ s)
    (lexFst_ s) (knownLm_ s) (unkLm_ s) (unkBases_ s) (latticeLikelihood_ s)
    (knownLikelihood_ s) (unkLikelihood_ s) (prng_ s).

Definition set_prefix_ (v : string) (s : LatticeLM) : LatticeLM :=
  mkLatticeLM (numBurnIn_ s) (numAnnealSteps_ s) (annealStepLength_ s)
    (numSamples_ s) (sampleRate_ s) (trimRate_ s) (pruneThreshold_ s)
    (amScale_ s) (knownN_ s) (unkN_ s) (inputFileList_ s) (inputFiles_ s)
    (inputType_ s) (cacheInput_ s) (inputFsts_ s) (symbolFile_ s) v
    (separator_ s) (mySamples_ s) (histories_ s) (unkSymbolSize_ s)
    (annealLevel_ s) (lexFst_ s) (knownLm_ s) (unkLm_ s) (unkBases_ s)
    (latticeLikelihood_ s) (knownLikelihood_ s) (unkLikelihood_ s) (prng_ s).

Definition set_separator_ (v : string) (s : LatticeLM) : LatticeLM :=
  mkLatticeLM (numBurnIn_ s) (numAnnealSteps_ s) (annealStepLength_ s)
    (numSamples_ s) (sampleRate_ s) (trimRate_ s) (pruneThreshold_ s)
    (amScale_ s) (knownN_ s) (unkN_ s) (inputFileList_ s) (inputFiles_ s)
    (inputType_ s) (cacheInput_ s) (inputFsts_ s) (symbolFile_ s) (prefix_ s)
    v (mySamples_ s) (histories_ s) (unkSymbolSize_ s) (annealLevel_ s)
    (lexFst_ s) (knownLm_ s) (unkLm_ s) (unkBases_ s) (latticeLikelihood_ s)
    (knownLikelihood_ s) (unkLikelihood_ s) (prng_ s).

Definition set_mySamples_ (v : list Z) (s : LatticeLM) : LatticeLM :=
  mkLatticeLM (numBurnIn_ s) (numAnnealSteps_ s) (annealStepLength_ s)
    (numSamples_ s) (sampleRate_ s) (trimRate_ s) (pruneThreshold_ s)
    (amScale_ s) (knownN_ s) (unkN_ s) (inputFileList_ s) (inputFiles_ s)
    (inputType_ s) (cacheInput_ s) (inputFsts_ s) (symbolFile_ s) (prefix_ s)
    (separator_ s) v (histories_ s) (unkSymbolSize_ s) (annealLevel_ s)
    (lexFst_ s) (knownLm_ s) (unkLm_ s) (unkBases_ s) (latticeLikelihood_ s)
    (knownLikelihood_ s) (unkLikelihood_ s) (prng_ s).

Definition set_histories_ (v : list (list WordId)) (s : LatticeLM) : LatticeLM :=
  mkLatticeLM (numBurnIn_ s) (numAnnealSteps_ s) (annealStepLength_ s)
    (numSamples_ s) (sampleRate_ s) (trimRate_ s) (pruneThreshold_ s)
    (amScale_ s) (knownN_ s) (unkN_ s) (inputFileList_ s) (inputFiles_ s)
    (inputType_ s) (cacheInput_ s) (inputFsts_ s) (symbolFile_ s) (prefix_ s)
    (separator_ s) (mySamples_ s) v (unkSymbolSize_ s) (annealLevel_ s)
    (lexFst_ s) (knownLm_ s) (unkLm_ s) (unkBases_ s) (latticeLikelihood_ s)
    (knownLikelihood_ s) (unkLikelihood_ s) (prng_ s).

Definition set_unkSymbolSize_ (v : Z) (s : LatticeLM) : LatticeLM :=
  mkLatticeLM (numBurnIn_ s) (numAnnealSteps_ s) (annealStepLength_ s)
    (numSamples_ s) (sampleRate_ s) (trimRate_ s) (pruneThreshold_ s)
    (amScale_ s) (knownN_ s) (unkN_ s) (inputFileList_ s) (inputFiles_ s)
    (inputType_ s) (cacheInput_ s) (inputFsts_ s) (symbolFile_ s) (prefix_ s)
    (separator_ s) (mySamples_ s) (histories_ s) v (annealLevel_ s)
    (lexFst_ s) (knownLm_ s) (unkLm_ s) (unkBases_ s) (latticeLikelihood_ s)
    (knownLikelihood_ s) (unkLikelihood_ s) (prng_ s).

Definition set_annealLevel_ (v : Q) (s : LatticeLM) : LatticeLM :=
  mkLatticeLM (numBurnIn_ s) (numAnnealSteps_ s) (annealStepLength_ s)
    (numSamples_ s) (sampleRate_ s) (trimRate_ s) (pruneThreshold_ s)
    (amScale_ s) (knownN_ s) (unkN_ s) (inputFileList_ s) (inputFiles_ s)
    (inputType_ s) (cacheInput_ s) (inputFsts_ s) (symbolFile_ s) (prefix_ s)
    (separator_ s) (mySamples_ s) (histories_ s) (unkSymbolSize_ s) v
    (lexFst_ s) (knownLm_ s) (unkLm_ s) (unkBases_ s) (latticeLikelihood_ s)
    (knownLikelihood_ s) (unkLikelihood_ s) (prng_ s).

Definition set_lexFst_ (v : option LexFst) (s : LatticeLM) : LatticeLM :=
  mkLatticeLM (numBurnIn_ s) (numAnnealSteps_ s) (annealStepLength_ s)
    (numSamples_ s) (sampleRate_ s) (trimRate_ s) (pruneThreshold_ s)
    (amScale_ s) (knownN_ s) (unkN_ s) (inputFileList_ s) (inputFiles_ s)
    (inputType_ s) (cacheInput_ s) (inputFsts_ s) (symbolFile_ s) (prefix_ s)
    (separator_ s) (mySamples_ s) (histories_ s) (unkSymbolSize_ s)
    (annealLevel_ s) v (knownLm_ s) (unkLm_ s) (unkBases_ s)
    (latticeLikelihood_ s) (knownLikelihood_ s) (unkLikelihood_ s) (prng_ s).

Definition set_knownLm_ (v : option PyLM) (s : LatticeLM) : LatticeLM :=
  mkLatticeLM (numBurnIn_ s) (numAnnealSteps_ s) (annealStepLength_ s)
    (numSamples_ s) (sampleRate_ s) (trimRate_ s) (pruneThreshold_ s)
    (amScale_ s) (knownN_ s) (unkN_ s) (inputFileList_ s) (inputFiles_ s)
    (inputType_ s) (cacheInput_ s) (inputFsts_ s) (symbolFile_ s) (prefix_ s)
    (separator_ s) (mySamples_ s) (histories_ s) (unkSymbolSize_ s)
    (annealLevel_ s) (lexFst_ s) v (unkLm_ s) (unkBases_ s)
    (latticeLikelihood_ s) (knownLikelihood_ s) (unkLikelihood_ s) (prng_ s).

Definition set_unkLm_ (v : option PyLM) (s : LatticeLM) : LatticeLM :=
  mkLatticeLM (numBurnIn_ s) (numAnnealSteps_ s) (annealStepLength_ s)
    (numSamples_ s) (sampleRate_ s) (trimRate_ s) (pruneThreshold_ s)
    (amScale_ s) (knownN_ s) (unkN_ s) (inputFileList_ s) (inputFiles_ s)
    (inputType_ s) (cacheInput_ s) (inputFsts_ s) (symbolFile_ s) (prefix_ s)
    (separator_ s) (mySamples_ s) (histories_ s) (unkSymbolSize_ s)
    (annealLevel_ s) (lexFst_ s) (knownLm_ s) v (unkBases_ s)
    (latticeLikelihood_ s) (knownLikelihood_ s) (unkLikelihood_ s) (prng_ s).

Definition set_unkBases_ (v : list LMProb) (s : LatticeLM) : LatticeLM :=
  mkLatticeLM (numBurnIn_ s) (numAnnealSteps_ s) (annealStepLength_ s)
    (numSamples_ s) (sampleRate_ s) (trimRate_ s) (pruneThreshold_ s)
    (amScale_ s) (knownN_ s) (unkN_ s) (inputFileList_ s) (inputFiles_ s)
    (inputType_ s) (cacheInput_ s) (inputFsts_ s) (symbolFile_ s) (prefix_ s)
    (separator_ s) (mySamples_ s) (histories_ s) (unkSymbolSize_ s)
    (annealLevel_ s) (lexFst_ s) (knownLm_ s) (unkLm_ s) v
    (latticeLikelihood_ s) (knownLikelihood_ s) (unkLikelihood_ s) (prng_ s).

Definition set_latticeLikelihood_ (v : Q) (s : LatticeLM) : LatticeLM :=
  mkLatticeLM (numBurnIn_ s) (numAnnealSteps_ s) (annealStepLength_ s)
    (numSamples_ s) (sampleRate_ s) (trimRate_ s) (pruneThreshold_ s)
    (amScale_ s) (knownN_ s) (unkN_ s) (inputFileList_ s) (inputFiles_ s)
    (inputType_ s) (cacheInput_ s) (inputFsts_ s) (symbolFile_ s) (prefix_ s)
    (separator_ s) (mySamples_ s) (histories_ s) (unkSymbolSize_ s)
    (annealLevel_ s) (lexFst_ s) (knownLm_ s) (unkLm_ s) (unkBases_ s) v
    (knownLikelihood_ s) (unkLikelihood_ s) (prng_ s).

Definition set_knownLikelihood_ (v : Q) (s : LatticeLM) : LatticeLM :=
  mkLatticeLM (numBurnIn_ s) (numAnnealSteps_ s) (annealStepLength_ s)
    (numSamples_ s) (sampleRate_ s) (trimRate_ s) (pruneThreshold_ s)
    (amScale_ s) (knownN_ s) (unkN_ s) (inputFileList_ s) (inputFiles_ s)
    (inputType_ s) (cacheInput_ s) (inputFsts_ s) (symbolFile_ s) (prefix_ s)
    (separator_ s) (mySamples_ s) (histories_ s) (unkSymbolSize_ s)
    (annealLevel_ s) (lexFst_ s) (knownLm_ s) (unkLm_ s) (unkBases_ s)
    (latticeLikelihood_ s) v (unkLikelihood_ s) (prng_ s).

Definition set_unkLikelihood_ (v : Q) (s : LatticeLM) : LatticeLM :=
  mkLatticeLM (numBurnIn_ s) (numAnnealSteps_ s) (annealStepLength_ s)
    (numSamples_ s) (sampleRate_ s) (trimRate_ s) (pruneThreshold_ s)
    (amScale_ s) (knownN_ s) (unkN_ s) (inputFileList_ s) (inputFiles_ s)
    (inputType_ s) (cacheInput_ s) (inputFsts_ s) (symbolFile_ s) (prefix_ s)
    (separator_ s) (mySamples_ s) (histories_ s) (unkSymbolSize_ s)
    (annealLevel_ s) (lexFst_ s) (knownLm_ s) (unkLm_ s) (unkBases_ s)
    (latticeLikelihood_ s) (knownLikelihood_ s) v (prng_ s).

Definition set_prng_ (v : Rng) (s : LatticeLM) : LatticeLM :=
  mkLatticeLM (numBurnIn_ s) (numAnnealSteps_ s) (annealStepLength_ s)
    (numSamples_ s) (sampleRate_ s) (trimRate_ s) (pruneThreshold_ s)
    (amScale_ s) (knownN_ s) (unkN_ s) (inputFileList_ s) (inputFiles_ s)
    (inputType_ s) (cacheInput_ s) (inputFsts_ s) (symbolFile_ s) (prefix_ s)
    (separator_ s) (mySamples_ s) (histories_ s) (unkSymbolSize_ s)
    (annealLevel_ s) (lexFst_ s) (knownLm_ s) (unkLm_ s) (unkBases_ s)
    (latticeLikelihood_ s) (knownLikelihood_ s) (unkLikelihood_ s) v.

(** *** Member functions as computations

    A member function reads and writes the object, appends to the trace
    and ends in an [Outcome]; the trace and the object are kept also when
    it does not return. *)

Record Result (A : Type) : Type := mkResult {
  outcome : Outcome A;
  final : LatticeLM;
  trace : list Event
}.

Arguments mkResult {A} outcome final trace.
Arguments outcome {A} r.
Arguments final {A} r.
Arguments trace {A} r.

Definition M (A : Type) : Type := LatticeLM -> Result A.

Definition ret {A : Type} (a : A) : M A := fun s => mkResult (Ok a) s [].

Definition bind {A B : Type} (m : M A) (k : A -> M B) : M B :=
  fun s =>
    let r := m s in
    match outcome r with
    | Ok a =>
        let r' := k a (final r) in
        mkResult (outcome r') (final r') (trace r ++ trace r')
    | Exit c => mkResult (Exit c) (final r) (trace r)
    | Throw e => mkResult (Throw e) (final r) (trace r)
    | Undefined => mkResult Undefined (final r) (trace r)
    | Diverge => mkResult Diverge (final r) (trace r)
    end.

Notation "x <- m ;; k" := (bind m (fun x => k))
  (at level 100, m at next level, right associativity).
Notation "m ;; k" := (bind m (fun _ => k))
  (at level 100, right associativity).

Definition get : M LatticeLM := fun s => mkResult (Ok s) s [].
Definition gets {A : Type} (f : LatticeLM -> A) : M A := fun s => mkResult (Ok (f s)) s [].
Definition modify (f : LatticeLM -> LatticeLM) : M unit := fun s => mkResult (Ok tt) (f s) [].
Definition emit (e : Event) : M unit := fun s => mkResult (Ok tt) s [e].
Definition stop {A : Type} (o : Outcome A) : M A := fun s => mkResult o s [].

(** [exit(code)] and [THROW_ERROR(msg)]; the macro is declared in another
    header and is taken to raise an exception carrying the message, which
    nothing in this class catches. *)
Definition exit {A : Type} (code : Z) : M A := stop (Exit code).
Definition THROW_ERROR {A : Type} (msg : string) : M A := stop (Throw msg).

(** A value whose absence is undefined behaviour: a null pointer that is
    dereferenced, an index out of range. *)
Definition defined {A : Type} (o : option A) : M A :=
  match o with
  | Some a => ret a
  | None => stop Undefined
  end.

Definition when (b : bool) (m : M unit) : M unit := if b then m else ret tt.

(** [for (x : l) body] *)
Fixpoint forEach {A : Type} (l : list A) (body : A -> M unit) : M unit :=
  match l with
  | [] => ret tt
  | x :: rest => body x ;; forEach rest body
  end.

(** [for(unsigned i = 0; i < n; i++) body]; every bound in this class is
    left unchanged by the body of its loop. *)
Definition forRange (n : Z) (body : Z -> M unit) : M unit :=
  forEach (seqZ 0 n) body.

(** The process-wide generator, threaded through a collaborator. *)
Definition withRng {A : Type} (f : Rng -> A * Rng) : M A :=
  s <- get ;;
  let '(a, g) := f (prng_ s) in
  modify (set_prng_ g) ;;
  ret a.

(** *** Construction (lines 96-105)

    The three likelihood members are not initialised by the constructor;
    [train] resets them before any use, and they start at 0 here. *)

Definition LatticeLM_new (g : Rng) : LatticeLM :=
  mkLatticeLM 20 5 3 100 1 1 0 (2 # 10) 3 3
    None [] INPUT_TEXT false [] None
    EmptyString EmptyString [] [] 0 0
    None None None [] 0 0 0 g.

(** *** [dieOnHelp] (lines 113-144) *)

Definition usage : list string :=
  [ "---latticelm v. 0.2 (9/21/2010)---";
    " A tool for learning a language model and a word dictionary";
    " from lattices (or text) using Pitman-Yor language models and";
    " Weighted Finite State Transducers";
    "  By Graham Neubig"; "";
    "Usage: latticelm -prefix out/ input.txt";
    "Options:";
    "  -burnin:       The number of iteration to execute as burn-in (20)";
    "  -annealsteps:  The number of annealing steps to perform (5)";
    "                 See Goldwater+ 2009 for details on annealing.";
    "  -anneallength: The length of each annealing step in iterations (3)";
    "  -samps:        The number of samples to take (100)";
    "  -samprate:     The frequency (in iterations) at which to take samples (1)";
    "  -knownn:       The n-gram length of the language model (3)";
    "  -unkn:         The n-gram length of the spelling model (3)";
    "  -prune:        If this is activated, paths that are worse than the";
    "                 best path by at least this much will be pruned.";
    "  -input:        The type of input (text/fst, default text).";
    "  -filelist:     A list of input files, one file per line.";
    "                 For fst input, files must be in OpenFST binary ";
    "                 format, tropical semiring. Text files consist of one";
    "                 sentence per line.";
    "  -symbolfile:   The symbol file for the WFSTs, not used for text input.";
    "  -prefix:       The prefix under which to print all output.";
    "  -separator:    The string to use to separate 'characters'.";
    "  -cacheinput:   For WFST input, cache the WFSTs in memory (otherwise";
    "                 they will be loaded from disk every iteration)." ]%string.

Definition usagePieces : list Piece :=
  concat (map (fun l => [Str l; Endl]) usage).

Definition dieOnHelp {A : Type} (err : option string) : M A :=
  emit (Cerr usagePieces) ;;
  match err with
  | Some e => emit (Cerr [Endl; Str "Error: "; Str e; Endl])
  | None => ret tt
  end ;;
  exit 1.

(** *** [findId] (lines 146-154)

    The hash and the list are passed by reference; [Ids] is the pair.
    [idHash.size()] is a [size_t] stored in, and returned as, a [CharId]. *)

Record Ids : Type := mkIds {
  idHash : gmap string Z;
  idList : list string
}.

Definition findId (str : string) (ids : Ids) : CharId * Ids :=
  match idHash ids !! str with
  | None =>
      let h := <[ str := Machine.to_int (Z.of_nat (size (idHash ids))) ]> (idHash ids) in
      let l := idList ids ++ ["x" +:+ str] in
      (Machine.to_int (Z.of_nat (size h) - 1), mkIds h l)
  | Some id => (id, ids)
  end.

(** *** [loadText] (lines 155-191) *)

(** The state of the loop over one line: the state counter, the symbols
    and the transducer under construction. *)
Record LineLoop : Type := mkLineLoop {
  ll_state : Z;
  ll_ids : Ids;
  ll_fst : VectorFst
}.

(** [for(state = 0; iss >> str; state++)] *)
Fixpoint readTokens (toks : list string) (st : LineLoop) : LineLoop :=
  match toks with
  | [] => st
  | str :: rest =>
      let state := ll_state st in
      let found := findId str (ll_ids st) in
      let lab := fst found in
      let f := AddArc (AddState (ll_fst st)) state (mkArc lab lab 0 (state + 1)) in
      readTokens rest (mkLineLoop (state + 1) (snd found) f)
  end.

(** The body of [while(getline(in,line))]. *)
Definition loadLine (file : string) (ids : Ids) (line : string) : M Ids :=
  let f0 := SetStart (AddState emptyFst) 0 in
  let st := readTokens (tokens line) (mkLineLoop 0 ids f0) in
  let f := SetFinal (ll_fst st) (ll_state st) 0 in
  if ll_state st =? 0
  then
    emit (Cerr [Str "Empty line found in "; Str file; Endl]) ;;
    emit (Cerr [Str "Please ensure that each line in the training file contains at least one symbol."; Endl]) ;;
    exit 1
  else
    modify (fun s => set_inputFsts_ (inputFsts_ s ++ [Some f]) s) ;;
    ret (ll_ids st).

Fixpoint foldM {A B : Type} (f : B -> A -> M B) (l : list A) (b : B) : M B :=
  match l with
  | [] => ret b
  | x :: rest => b' <- f b x ;; foldM f rest b'
  end.

(** Lines a stream yields; a stream that failed to open yields none. *)
Definition linesOf (file : string) : list string :=
  match fileLines file with
  | Some ls => ls
  | None => []
  end.

Definition loadFile (ids : Ids) (file : string) : M Ids :=
  foldM (loadLine file) (linesOf file) ids.

(** The loop of [loadText] with what precedes it; the result is the hash
    and the list as the loop leaves them. *)
Definition loadTextIds : M Ids :=
  let ids0 := mkIds ∅ [] in
  let ids1 := snd (findId "<eps>" ids0) in
  let ids2 := snd (findId "<phi>" ids1) in
  let ids3 := mkIds (idHash ids2) (idList ids2 ++ ["x<unk>"%string; "x</unk>"%string]) in
  files <- gets inputFiles_ ;;
  foldM loadFile files ids3.

Definition loadText : M (list string) :=
  ids <- loadTextIds ;;
  ret (idList ids ++ ["w<s>"%string]).

(** The transducer of a sentence, as the specification describes it: one
    state per label and one more, an arc from each state to the next
    carrying the label on both tapes with weight 0, and the last state
    final with weight 0. *)
Definition linearFst (labels : list CharId) : VectorFst :=
  mkFst 0
    (imap (fun i lab => mkFstState None [mkArc lab lab 0 (Z.of_nat i + 1)]) labels
     ++ [mkFstState (Some 0%Q) []]).

(** The input files line by line, each line with the name of its file. *)
Definition inputLines (files : list string) : list (string * string) :=
  flat_map (fun f => map (pair f) (linesOf f)) files.

(** *** [loadProperties] (lines 193-289)

    [argv] is the list of arguments after the program name.  An option
    that takes a value reads [argv[++argPos]]; after the last argument
    that is the null pointer ending [argv], and the loop then stops with
    [argPos] beyond [argc], so that no input file is left. *)

Definition startsWithDash (a : string) : bool :=
  match a with
  | String c _ => Ascii.eqb c "-"%char
  | EmptyString => false
  end.

Inductive OptionKind : Type :=
| TakesValue (assign : string -> M unit) (onNull : M unit)
| Flag (assign : M unit)
| Illegal.

(** [x = atoi(...)] into an [unsigned] member; [atoi] of a null pointer
    is undefined. *)
Definition unsignedOption (set : Z -> LatticeLM -> LatticeLM) : OptionKind :=
  TakesValue (fun v => modify (set (Machine.to_unsigned (atoi v)))) (stop Undefined).

Definition inputOption : OptionKind :=
  TakesValue
    (fun v =>
       if String.eqb "fst" v then modify (set_inputType_ INPUT_FST)
       else if String.eqb "text" v then modify (set_inputType_ INPUT_TEXT)
       else dieOnHelp (Some ("Bad input type '" +:+ v +:+ "'")))
    (stop Undefined).

Definition optionKind (a : string) : OptionKind :=
  if String.eqb a "-burnin" then unsignedOption set_numBurnIn_
  else if String.eqb a "-annealsteps" then unsignedOption set_numAnnealSteps_
  else if String.eqb a "-anneallength" then unsignedOption set_annealStepLength_
  else if String.eqb a "-samps" then unsignedOption set_numSamples_
  else if String.eqb a "-samprate" then unsignedOption set_sampleRate_
  else if String.eqb a "-knownn" then unsignedOption set_knownN_
  else if String.eqb a "-unkn" then unsignedOption set_unkN_
  else if String.eqb a "-prune"
       then TakesValue (fun v => modify (set_pruneThreshold_ (atof v))) (stop Undefined)
  else if String.eqb a "-filelist"
       then TakesValue (fun v => modify (set_inputFileList_ (Some v)))
                       (modify (set_inputFileList_ None))
  else if String.eqb a "-input" then inputOption
  else if String.eqb a "-symbolfile"
       then TakesValue (fun v => modify (set_symbolFile_ (Some v)))
                       (modify (set_symbolFile_ None))
  else if String.eqb a "-prefix"
       then TakesValue (fun v => modify (set_prefix_ v)) (stop Undefined)
  else if String.eqb a "-separator"
       then TakesValue (fun v => modify (set_separator_ v)) (stop Undefined)
  else if String.eqb a "-cacheinput" then Flag (modify (set_cacheInput_ true))
  else Illegal.

(** [for( ; argPos < argc && argv[argPos][0] == '-'; argPos++)]; the
    result is the arguments from the final [argPos] on. *)
Fixpoint parseOptions (args : list string) : M (list string) :=
  match args with
  | [] => ret []
  | a :: rest =>
      if startsWithDash a
      then match optionKind a with
           | TakesValue assign onNull =>
               match rest with
               | v :: rest' => assign v ;; parseOptions rest'
               | [] => onNull ;; ret []
               end
           | Flag assign => assign ;; parseOptions rest
           | Illegal => dieOnHelp (Some ("Illegal option: " +:+ a))
           end
      else ret args
  end.

Definition readable (file : string) : bool :=
  match fileLines file with
  | Some _ => true
  | None => false
  end.

Definition newline : string := String (ascii_of_nat 10) EmptyString.

(** [inputFiles_.push_back(file)] and the check that it opens. *)
Definition addInputFile (msg : string -> string) (file : string) : M unit :=
  modify (fun s => set_inputFiles_ (inputFiles_ s ++ [file]) s) ;;
  when (negb (readable file)) (dieOnHelp (Some (msg file))).

Definition loadInputFiles (positional : list string) : M unit :=
  list_ <- gets inputFileList_ ;;
  match list_ with
  | Some fl =>
      match fileLines fl with
      | None => dieOnHelp (Some ("Couldn't find the file list: " +:+ fl +:+ newline))
      | Some names =>
          forEach names
            (addInputFile (fun f => "Couldn't find input file: '" +:+ f +:+ "'" +:+ newline))
      end
  | None =>
      forEach positional
        (addInputFile (fun f => "Couldn't find input file: " +:+ f +:+ newline))
  end.

(** read the arguments; load the input files, either from the list or
    not (lines 194-255) *)
Definition readArguments (argv : list string) : M unit :=
  positional <- parseOptions argv ;;
  ty <- gets inputType_ ;;
  when (ty =? INPUT_TEXT) (modify (set_cacheInput_ true)) ;;
  loadInputFiles positional.

(** The lexicon and the input, transducers or text (lines 256-270). *)
Definition loadInput : M unit :=
  sep <- gets separator_ ;;
  modify (set_lexFst_ (Some (LexFst_setSeparator LexFst_new sep))) ;;
  ty <- gets inputType_ ;;
  (if ty =? INPUT_FST
   then
     s <- get ;;
     modify (set_inputFsts_ (resize (List.length (inputFiles_ s)) None (inputFsts_ s))) ;;
     match symbolFile_ s with
     | None => dieOnHelp (Some "No symbol file was set"%string)
     | Some sym =>
         lex <- defined (lexFst_ s) ;;
         modify (set_lexFst_ (Some (LexFst_load lex sym)))
     end
   else
     perm <- loadText ;;
     lex <- (s <- get ;; defined (lexFst_ s)) ;;
     modify (set_lexFst_ (Some (LexFst_initializeArcs (LexFst_setPermSymbols lex perm))))) ;;
  modify (fun s => set_histories_ (resize (List.length (inputFsts_ s)) [] (histories_ s)) s).

(** The symbols for the lexicon, the language models and the sanity
    check (lines 272-288).  [1.0/unkSymbolSize_] with no symbol is an
    infinity in the source and 0 here. *)
Definition finishLoad : M unit :=
  lex <- (s <- get ;; defined (lexFst_ s)) ;;
  let u := Machine.to_unsigned (LexFst_getNumChars lex) in
  modify (set_unkSymbolSize_ u) ;;
  modify (fun s => set_unkBases_ (resize MAX_WORD_LEN (1 / inject_Z u)%Q (unkBases_ s)) s) ;;
  emit (Cerr [Str "Loaded "; Uns u; Str " symbols"]) ;;
  sym <- gets symbolFile_ ;;
  match sym with
  | Some f => emit (Cerr [Str " from "; Str f])
  | None => ret tt
  end ;;
  emit (Cerr [Endl]) ;;
  modify (fun s => set_knownLm_ (Some (PyLM_new (knownN_ s))) s) ;;
  modify (fun s => set_unkLm_ (Some (PyLM_new (unkN_ s))) s) ;;
  s <- get ;;
  if (List.length (inputFiles_ s) =? 0)%nat
  then dieOnHelp (Some "No input files specified"%string)
  else if (String.length (prefix_ s) =? 0)%nat
  then dieOnHelp (Some "No output prefix was specified"%string)
  else ret tt.

Definition loadProperties (argv : list string) : M unit :=
  readArguments argv ;;
  loadInput ;;
  finishLoad.

(** *** Calls through [knownLm_] and [unkLm_] *)

Definition lmOf (lm : Lm) (s : LatticeLM) : option PyLM :=
  match lm with
  | KnownLm => knownLm_ s
  | UnkLm => unkLm_ s
  end.

Definition setLm (lm : Lm) (p : PyLM) : LatticeLM -> LatticeLM :=
  match lm with
  | KnownLm => set_knownLm_ (Some p)
  | UnkLm => set_unkLm_ (Some p)
  end.

Definition theLm (lm : Lm) : M PyLM :=
  s <- get ;; defined (lmOf lm s).

Definition theLex : M LexFst :=
  s <- get ;; defined (lexFst_ s).

Definition calcSentence (lm : Lm) (ws : list Z) (bases : list LMProb) (doAdd : bool) : M LMProb :=
  p <- theLm lm ;;
  emit (EvCalcSentence lm ws bases doAdd) ;;
  r <- withRng (fun g =>
         let out := PyLM_calcSentence p ws bases doAdd g in
         ((fst (fst out), snd (fst out)), snd out)) ;;
  modify (setLm lm (snd r)) ;;
  ret (fst r).

Definition removeCustomers (lm : Lm) (ws : list Z) : M unit :=
  p <- theLm lm ;;
  emit (EvRemoveCustomers lm ws) ;;
  p' <- withRng (PyLM_removeCustomers p ws) ;;
  modify (setLm lm p').

Definition getBasePositions (lm : Lm) : M (list Z) :=
  p <- theLm lm ;; ret (PyLM_getBasePositions p).

(** *** [removeSample] (lines 452-458)

    [remPositions] refers to the list held by the word model, which the
    calls on the character model leave as it is. *)

Definition removeSample (sentId : Z) : M unit :=
  s <- get ;;
  h <- defined (nthZ (histories_ s) sentId) ;;
  removeCustomers KnownLm h ;;
  remPositions <- getBasePositions KnownLm ;;
  lex <- theLex ;;
  let knownWords := LexFst_getWords lex in
  forEach remPositions (fun pos =>
    w <- defined (nthZ h pos) ;;
    cs <- defined (nthZ knownWords w) ;;
    removeCustomers UnkLm cs).

(** *** [addSample] (lines 461-473) *)

Definition addSample (sentId : Z) : M unit :=
  s <- get ;;
  words <- defined (nthZ (histories_ s) sentId) ;;
  lex <- theLex ;;
  let knownWords := LexFst_getWords lex in
  knownBases <-
    foldM (fun bases j =>
             w <- defined (nthZ words j) ;;
             cs <- defined (nthZ knownWords w) ;;
             s <- get ;;
             p <- calcSentence UnkLm cs (unkBases_ s) false ;;
             ret (<[ Z.to_nat j := exp p ]> bases))
          (seqZ 0 (sizeZ words))
          (replicate (List.length words) 0%Q) ;;
  p <- calcSentence KnownLm words knownBases true ;;
  modify (fun s => set_knownLikelihood_ (knownLikelihood_ s - p)%Q s) ;;
  addPositions <- getBasePositions KnownLm ;;
  forEach addPositions (fun pos =>
    w <- defined (nthZ words pos) ;;
    cs <- defined (nthZ knownWords w) ;;
    s <- get ;;
    p <- calcSentence UnkLm cs (unkBases_ s) true ;;
    modify (fun s => set_unkLikelihood_ (unkLikelihood_ s - p)%Q s)).

(** *** [createInputFst] (lines 476-492) *)

Definition cachedFst (s : LatticeLM) (sentId : Z) : option VectorFst :=
  if cacheInput_ s && (sentId <? sizeZ (inputFsts_ s))
  then match nthZ (inputFsts_ s) sentId with
       | Some (Some f) => Some f
       | _ => None
       end
  else None.

Definition storeFst (sentId : Z) (f : VectorFst) (s : LatticeLM) : LatticeLM :=
  let v := if sizeZ (inputFsts_ s) <=? sentId
           then resize (Z.to_nat (sentId + 1)) None (inputFsts_ s)
           else inputFsts_ s in
  set_inputFsts_ (<[ Z.to_nat sentId := Some f ]> v) s.

Definition createInputFst (sentId : Z) : M VectorFst :=
  s <- get ;;
  match cachedFst s sentId with
  | Some f => ret f
  | None =>
      file <- defined (nthZ (inputFiles_ s) sentId) ;;
      emit (EvFstRead file) ;;
      nextFst <- defined (fstRead file) ;;
      emit (EvMap (amScale_ s) file) ;;
      let f := ArcSortOLabel (WeightedMap (amScale_ s) nextFst) in
      when (cacheInput_ s) (modify (storeFst sentId f)) ;;
      ret f
  end.

(** *** [singleSample] (lines 402-449) *)

(** The walk along the sampled path.  A walk that follows as many arcs as
    there are states and still finds one has entered a state twice and
    goes round for ever. *)
Fixpoint walkPath (fuel : nat) (f : VectorFst) (sid : Z) : M unit :=
  st <- defined (nthZ (fst_states f) sid) ;;
  match st_arcs st with
  | [] => ret tt
  | a :: _ =>
      match fuel with
      | O => stop Diverge
      | S k =>
          modify (fun s => set_latticeLikelihood_ (latticeLikelihood_ s + weight a)%Q s) ;;
          walkPath k f (nextstate a)
      end
  end.

(** [if(histories_[sentId].size()) removeSample(sentId);] *)
Definition removeOld (sentId : Z) : M unit :=
  s <- get ;;
  h <- defined (nthZ (histories_ s) sentId) ;;
  when (negb (List.length h =? 0)%nat) (removeSample sentId).

(** The transducers of one resample: the input, its composition with the
    lexicon, the view of the two language models, and the composition of
    the last two through the phi matchers. *)
Record Composed : Type := mkComposed {
  inputFst : VectorFst;
  ilFst : LazyFst;
  pylmFst : LazyFst;
  ilpFst : LazyFst
}.

(** build (lines 407-414) *)
Definition buildFsts (sentId : Z) : M Composed :=
  input <- createInputFst sentId ;;
  lex <- theLex ;;
  known <- theLm KnownLm ;;
  unk <- theLm UnkLm ;;
  u <- gets unkSymbolSize_ ;;
  let il := ComposeLex input lex in
  let pylm := PylmFst known unk u in
  ret (mkComposed input il pylm (ComposePhi il pylm)).

(** prune (lines 417-421) *)
Definition pruneFst (c : Composed) : M VectorFst :=
  threshold <- gets pruneThreshold_ ;;
  if nonzero threshold
  then emit (EvPrune threshold) ;; ret (Prune (ilpFst c) threshold)
  else ret (expand (ilpFst c)).

(** check to make sure that pruning worked correctly (lines 422-429) *)
Definition collapseMessage : string :=
  "Pruned FST has one or fewer states" +:+ newline.

Definition checkPruned (c : Composed) (prunedFst : VectorFst) : M unit :=
  if NumStates prunedFst <=? 1
  then
    emit (EvFstWrite "inputFst.fst" (inputFst c)) ;;
    emit (EvFstWrite "ilFst.fst" (expand (ilFst c))) ;;
    emit (EvFstWrite "ilpFst.fst" (expand (ilpFst c))) ;;
    emit (EvFstWrite "pylmFst.fst" (expand (pylmFst c))) ;;
    THROW_ERROR collapseMessage
  else ret tt.

(** sample, and save (lines 431-434) *)
Definition drawSample (sentId : Z) (prunedFst : VectorFst) (annealLevel : Q) : M VectorFst :=
  emit (EvSampGen prunedFst 1 annealLevel) ;;
  sampledFst <- withRng (SampGen prunedFst 1 annealLevel) ;;
  lex <- theLex ;;
  let parsed := LexFst_parseSample lex sampledFst in
  modify (set_lexFst_ (Some (snd parsed))) ;;
  modify (fun s => set_histories_ (<[ Z.to_nat sentId := fst parsed ]> (histories_ s)) s) ;;
  ret sampledFst.

(** calculate the likelihood (lines 442-448) *)
Definition addLikelihood (sampledFst : VectorFst) : M unit :=
  walkPath (List.length (fst_states sampledFst)) sampledFst (fst_start sampledFst).

Definition singleSample (sentId : Z) (annealLevel : Q) : M unit :=
  removeOld sentId ;;
  c <- buildFsts sentId ;;
  prunedFst <- pruneFst c ;;
  checkPruned c prunedFst ;;
  sampledFst <- drawSample sentId prunedFst annealLevel ;;
  addSample sentId ;;
  addLikelihood sampledFst.

(** *** [trimModels] (lines 332-354) *)

Definition trimLm (lm : Lm) (returnRemap : bool) : M (list WordId) :=
  p <- theLm lm ;;
  emit (EvTrim lm returnRemap) ;;
  let r := PyLM_trim p returnRemap in
  modify (setLm lm (snd r)) ;;
  ret (fst r).

(** [histories_[i][j] = v] *)
Definition setHistory (i j : Z) (v : WordId) (s : LatticeLM) : LatticeLM :=
  set_histories_ (alter (fun h => <[ Z.to_nat j := v ]> h) (Z.to_nat i) (histories_ s)) s.

Definition trimModels : M unit :=
  trimmedIds <- trimLm KnownLm true ;;
  trimLm UnkLm false ;;
  lex <- theLex ;;
  sep <- gets separator_ ;;
  let knownWords := LexFst_getWords lex in
  let nextLex0 :=
    LexFst_initializeArcs
      (LexFst_setPermSymbols (LexFst_setSeparator LexFst_new sep)
                             (LexFst_getPermSymbols lex)) in
  nextLex <-
    foldM (fun nl i =>
             t <- defined (nthZ trimmedIds i) ;;
             if negb (t =? -1)
             then w <- defined (nthZ knownWords i) ;; ret (LexFst_addWord nl w)
             else ret nl)
          (seqZ 0 (sizeZ knownWords)) nextLex0 ;;
  n <- gets (fun s => sizeZ (histories_ s)) ;;
  forRange n (fun i =>
    hi <- (s <- get ;; defined (nthZ (histories_ s) i)) ;;
    forRange (sizeZ hi) (fun j =>
      s <- get ;;
      h <- defined (nthZ (histories_ s) i) ;;
      w <- defined (nthZ h j) ;;
      t <- defined (nthZ trimmedIds w) ;;
      modify (setHistory i j t))) ;;
  modify (set_lexFst_ (Some nextLex)).

(** *** [printIterationStatus] (lines 357-367) *)

Definition printIterationStatus (iter : Z) : M unit :=
  s <- get ;;
  known <- theLm KnownLm ;;
  unk <- theLm UnkLm ;;
  emit (Cerr [Str "Finished iteration "; Uns iter;
              Str " (Anneal="; Dbl (annealLevel_ s);
              Str "), LM="; Dbl (knownLikelihood_ s + unkLikelihood_ s)%Q;
              Str " (w="; Dbl (knownLikelihood_ s);
              Str ", u="; Dbl (unkLikelihood_ s);
              Str "), Lattice="; Dbl (latticeLikelihood_ s); Endl;
              Str " Vocabulary: w="; Int (PyLM_getVocabSize known);
              Str ", u="; Int (PyLM_getVocabSize unk); Endl;
              Str " LM size: w="; Int (PyLM_size known);
              Str ", u="; Int (PyLM_size unk); Endl]) ;;
  forRange (PyLM_getN known) (fun i =>
    emit (Cerr [Str " WLM "; Int (i + 1); Str "-gram, s="; Dbl (PyLM_getStrength known i);
                Str ", d="; Dbl (PyLM_getDiscount known i); Endl])) ;;
  forRange (PyLM_getN unk) (fun i =>
    emit (Cerr [Str " CLM "; Int (i + 1); Str "-gram, s="; Dbl (PyLM_getStrength unk i);
                Str ", d="; Dbl (PyLM_getDiscount unk i); Endl])).

(** *** [sampleParameters] (lines 370-373) *)

Definition sampleParametersOf (lm : Lm) : M unit :=
  p <- theLm lm ;;
  emit (EvSampleParameters lm) ;;
  p' <- withRng (fun g => PyLM_sampleParameters p g) ;;
  modify (setLm lm p').

Definition sampleParameters : M unit :=
  sampleParametersOf KnownLm ;;
  sampleParametersOf UnkLm.

(** *** [calculateWordBases] (lines 495-501) *)

Definition calculateWordBases : M (list LMProb) :=
  lex <- theLex ;;
  let knownWords := LexFst_getWords lex in
  foldM (fun bases j =>
           cs <- defined (nthZ knownWords j) ;;
           s <- get ;;
           p <- calcSentence UnkLm cs (unkBases_ s) false ;;
           ret (<[ Z.to_nat j := exp p ]> bases))
        (seqZ 0 (sizeZ knownWords))
        (replicate (List.length knownWords) 0%Q).

(** *** The writers (lines 504-552)

    [iter] is an [int]; a negative one leaves the name as it is. *)

Definition outputName (fileName default : string) (iter : Z) : M string :=
  prefix <- gets prefix_ ;;
  let name := if (String.length fileName =? 0)%nat then prefix +:+ default else fileName in
  ret (if 0 <=? iter then withSuffix name iter else name).

Definition writeSymbols (fileName : string) (iter : Z) : M unit :=
  name <- outputName fileName "sym" iter ;;
  emit (Cerr [Str "  Writing symbols to "; Str name; Endl]) ;;
  lex <- theLex ;;
  let words := LexFst_getSymbols lex in
  emit (EvFileWrite name (imap (fun i w => w +:+ tab +:+ decimal (Z.of_nat i)) words)).

Definition writeLm (lm : Lm) (symbols : list string) (bases : list LMProb)
    (fileName : string) (iter : Z) : M unit :=
  name <- outputName fileName "lm" iter ;;
  emit (Cerr [Str "  Writing LM to "; Str name; Endl]) ;;
  theLm lm ;;
  emit (EvLmPrint name lm symbols bases).

(** One line of the sample file: [symbols[histories_[i][j]].substr(1)],
    separated by blanks.  [substr(1)] throws on the empty string. *)
Definition sampleWord (symbols : list string) (w : WordId) : M string :=
  sym <- defined (nthZ symbols w) ;;
  match substr1 sym with
  | Some t => ret t
  | None => stop (Throw "basic_string::substr"%string)
  end.

Definition sampleLine (symbols : list string) (h : list WordId) : M string :=
  ws <- foldM (fun acc w => t <- sampleWord symbols w ;; ret (acc ++ [t])) h [] ;;
  ret (joinWith " " ws).

(** The file is recorded once all its lines are written. *)
Definition writeSamples (symbols : list string) (fileName : string) (iter : Z) : M unit :=
  name <- outputName fileName "samp" iter ;;
  emit (Cerr [Str "  Writing samples to "; Str name; Endl]) ;;
  hs <- gets histories_ ;;
  ls <- foldM (fun acc h => l <- sampleLine symbols h ;; ret (acc ++ [l])) hs [] ;;
  emit (EvFileWrite name ls).

(** *** [printSample] (lines 376-388) *)

Definition printSample (iter : Z) : M unit :=
  lex <- theLex ;;
  s <- get ;;
  let symbols := LexFst_getSymbols lex in
  charSymbols <- defined (fromPos symbols 2) ;;
  writeLm UnkLm charSymbols (unkBases_ s) (prefix_ s +:+ "ulm") iter ;;
  wordBases <- calculateWordBases ;;
  wordSymbols <- defined (fromPos symbols (Machine.to_unsigned (2 + unkSymbolSize_ s))) ;;
  writeLm KnownLm wordSymbols wordBases (prefix_ s +:+ "wlm") iter ;;
  writeSamples wordSymbols (prefix_ s +:+ "samp") iter ;;
  writeSymbols (prefix_ s +:+ "sym") iter.

(** *** [iterateSamples] (lines 390-400) *)

Definition dquote : ascii := ascii_of_nat 34.

Definition iterateSamples (annealLevel : Q) : M unit :=
  s <- get ;;
  let n := sizeZ (mySamples_ s) in
  let step := Machine.to_unsigned (n / 100 + 1) in
  emit (Cerr [Str "Running on "; Uns (sizeZ (inputFsts_ s)); Str " sequences (";
              Chr dquote; Str "."; Chr dquote; Str "="; Uns step;
              Str " sequences, "; Chr dquote; Str "!"; Chr dquote; Str "=";
              Uns (Machine.to_unsigned (step * 10)); Str " sequences)"; Endl]) ;;
  forRange n (fun i =>
    sentId <- (s <- get ;; defined (nthZ (mySamples_ s) i)) ;;
    singleSample sentId annealLevel ;;
    when (i mod step =? step - 1)
         (emit (Cerr [Chr (if i / step mod 10 =? 9 then "!"%char else "."%char)]))) ;;
  emit (Cerr [Chr " "%char; Elapsed; Str " seconds"; Endl]).

(** *** [train] (lines 292-329) *)

(** The body of the loop over [iter], in its three parts: the sweep
    over the sequences with its bookkeeping (lines 302-315), the trim
    (lines 317-319) and the snapshot (lines 321-325). *)

Definition sweep (iter : Z) : M unit :=
  modify (set_unkLikelihood_ 0%Q) ;;
  modify (set_knownLikelihood_ 0%Q) ;;
  modify (set_latticeLikelihood_ 0%Q) ;;
  s <- get ;;
  level <- defined (annealLevel iter (numAnnealSteps_ s) (annealStepLength_ s)) ;;
  modify (set_annealLevel_ level) ;;
  iterateSamples level ;;
  sampleParameters ;;
  printIterationStatus iter.

(** [iter%trimRate_]: a zero divisor is undefined. *)
Definition trimIfDue (iter : Z) : M unit :=
  s <- get ;;
  if trimRate_ s =? 0 then stop Undefined
  else when (iter mod trimRate_ s =? 0) trimModels.

(** [iter >= numBurnIn_ && (iter-numBurnIn_)%sampleRate_==0]; the
    difference is unsigned, and [printSample] takes an [int]. *)
Definition sampleDue (s : LatticeLM) (iter : Z) : option bool :=
  if numBurnIn_ s <=? iter
  then if sampleRate_ s =? 0 then None
       else Some (Machine.to_unsigned (iter - numBurnIn_ s) mod sampleRate_ s =? 0)
  else Some false.

Definition printIfDue (iter : Z) : M unit :=
  s <- get ;;
  due <- defined (sampleDue s iter) ;;
  when due
    (emit (Cerr [Str " Printing sample for iteration "; Uns iter; Endl]) ;;
     printSample (Machine.to_int iter)).

Definition trainIteration (iter : Z) : M unit :=
  sweep iter ;;
  trimIfDue iter ;;
  printIfDue iter.

(** [for(unsigned iter = 0; iter <= numSamples_; iter++)]: when
    [numSamples_] is the largest [unsigned] the condition cannot fail and
    the epochs start again from 0 without end. *)
Definition train : M unit :=
  modify (fun s => set_mySamples_ (seqZ 0 (sizeZ (inputFsts_ s))) s) ;;
  numSamples <- gets numSamples_ ;;
  forRange (numSamples + 1) trainIteration ;;
  when (numSamples =? Machine.modulus - 1) (stop Diverge).

(** ** Facts about machine integers *)


Lemma to_unsigned_range x : Machine.is_unsigned (Machine.to_unsigned x).
Proof. unfold Machine.is_unsigned, Machine.to_unsigned, Machine.modulus. apply Z.mod_pos_bound. lia. Qed.



Lemma to_int_small x : 0 <= x < Machine.half_modulus -> Machine.to_int x = x.
Proof.
  unfold Machine.to_int, Machine.modulus, Machine.half_modulus. intros H.
  rewrite Z.mod_small by lia.
  destruct (x <? 2 ^ 31) eqn:E; [reflexivity | apply Z.ltb_ge in E; lia].
Qed.

Lemma to_int_large x : Machine.half_modulus <= x < Machine.modulus -> Machine.to_int x = x - Machine.modulus.
Proof.
  unfold Machine.to_int, Machine.modulus, Machine.half_modulus. intros H.
  rewrite Z.mod_small by lia.
  destruct (x <? 2 ^ 31) eqn:E; [apply Z.ltb_lt in E; lia | reflexivity].
Qed.


(** ** Reasoning about computations *)

(** [runs m s a s' t]: from [s], [m] returns [a], leaves [s'] and emits [t]. *)
Definition runs {A : Type} (m : M A) (s : LatticeLM) (a : A) (s' : LatticeLM)
    (t : list Event) : Prop :=
  m s = mkResult (Ok a) s' t.

Lemma result_eta {A : Type} (r : Result A) :
  r = mkResult (outcome r) (final r) (trace r).
Proof. destruct r; reflexivity. Qed.



Lemma runs_fun {A : Type} (m : M A) s a s' t a' s'' t' :
  runs m s a s' t -> runs m s a' s'' t' -> a = a' /\ s' = s'' /\ t = t'.
Proof. unfold runs. intros H1 H2. rewrite H1 in H2. inversion H2. auto. Qed.

Lemma bind_step {A B : Type} (m : M A) (k : A -> M B) s a s1 t1 :
  runs m s a s1 t1 ->
  bind m k s = mkResult (outcome (k a s1)) (final (k a s1)) (t1 ++ trace (k a s1)).
Proof. unfold runs, bind. intros ->. reflexivity. Qed.

Lemma runs_bind {A B : Type} (m : M A) (k : A -> M B) s a s1 t1 b s2 t2 :
  runs m s a s1 t1 -> runs (k a) s1 b s2 t2 -> runs (bind m k) s b s2 (t1 ++ t2).
Proof.
  intros H1 H2. unfold runs. rewrite (bind_step _ _ _ _ _ _ H1).
  unfold runs in H2. rewrite H2. reflexivity.
Qed.

Lemma runs_bind_inv {A B : Type} (m : M A) (k : A -> M B) s b s2 t :
  runs (bind m k) s b s2 t ->
  exists a s1 t1 t2,
    runs m s a s1 t1 /\ runs (k a) s1 b s2 t2 /\ t = t1 ++ t2.
Proof.
  unfold runs, bind. intros H.
  destruct (m s) as [o s1 t1]; simpl in H.
  destruct o; try discriminate.
  exists a, s1, t1, (trace (k a s1)).
  split; [reflexivity|].
  injection H as Ho Hs Ht. subst s2 t. split; [|reflexivity].
  rewrite <- Ho. apply result_eta.
Qed.

Lemma runs_ret_inv {A : Type} (a b : A) s s' t :
  runs (ret a) s b s' t -> b = a /\ s' = s /\ t = [].
Proof. unfold runs, ret. intros H; inversion H; auto. Qed.

Lemma runs_get_inv s a s' t : runs get s a s' t -> a = s /\ s' = s /\ t = [].
Proof. unfold runs, get. intros H; inversion H; auto. Qed.

Lemma runs_gets_inv {A : Type} (f : LatticeLM -> A) s a s' t :
  runs (gets f) s a s' t -> a = f s /\ s' = s /\ t = [].
Proof. unfold runs, gets. intros H; inversion H; auto. Qed.

Lemma runs_modify_inv f s a s' t : runs (modify f) s a s' t -> s' = f s /\ t = [].
Proof. unfold runs, modify. intros H; inversion H; auto. Qed.

Lemma runs_emit_inv e s a s' t : runs (emit e) s a s' t -> s' = s /\ t = [e].
Proof. unfold runs, emit. intros H; inversion H; auto. Qed.

Lemma runs_stop_Ok_inv {A : Type} (x : A) s a s' t :
  runs (stop (Ok x)) s a s' t -> a = x /\ s' = s /\ t = [].
Proof. unfold runs, stop. intros H; inversion H; auto. Qed.

Lemma runs_defined_inv {A : Type} (o : option A) s a s' t :
  runs (defined o) s a s' t -> o = Some a /\ s' = s /\ t = [].
Proof.
  unfold runs, defined. destruct o; unfold ret, stop; intros H; inversion H; auto.
Qed.

Lemma runs_withRng_inv {A : Type} (f : Rng -> A * Rng) s a s' t :
  runs (withRng f) s a s' t ->
  a = fst (f (prng_ s)) /\ s' = set_prng_ (snd (f (prng_ s))) s /\ t = [].
Proof.
  unfold runs, withRng, bind, get. simpl.
  destruct (f (prng_ s)) as [x g]. simpl. intros H; inversion H; auto.
Qed.

Lemma runs_ret {A : Type} (a : A) s : runs (ret a) s a s [].
Proof. reflexivity. Qed.

Lemma runs_defined {A : Type} (o : option A) a s : o = Some a -> runs (defined o) s a s [].
Proof. intros ->. reflexivity. Qed.

(** Inversion of a run along the structure of the computation. *)
Ltac inv_run_step :=
  match goal with
  | H : runs (bind _ _) _ _ _ _ |- _ =>
      let a := fresh "a" in let s1 := fresh "s" in
      let t1 := fresh "t" in let t2 := fresh "t" in
      let H1 := fresh "Hrun" in let H2 := fresh "Hrun" in let Ht := fresh "Ht" in
      apply runs_bind_inv in H;
      destruct H as (a & s1 & t1 & t2 & H1 & H2 & Ht)
  | H : runs (ret _) _ _ _ _ |- _ =>
      apply runs_ret_inv in H; destruct H as (? & ? & ?)
  | H : runs get _ _ _ _ |- _ =>
      apply runs_get_inv in H; destruct H as (? & ? & ?)
  | H : runs (gets _) _ _ _ _ |- _ =>
      apply runs_gets_inv in H; destruct H as (? & ? & ?)
  | H : runs (modify _) _ _ _ _ |- _ =>
      apply runs_modify_inv in H; destruct H as (? & ?)
  | H : runs (emit _) _ _ _ _ |- _ =>
      apply runs_emit_inv in H; destruct H as (? & ?)
  | H : runs (defined _) _ _ _ _ |- _ =>
      apply runs_defined_inv in H; destruct H as (? & ? & ?)
  | H : runs (withRng _) _ _ _ _ |- _ =>
      apply runs_withRng_inv in H; destruct H as (? & ? & ?)
  | H : runs (stop _) _ _ _ _ |- _ => discriminate H
  | H : runs (exit _) _ _ _ _ |- _ => discriminate H
  | H : runs (THROW_ERROR _) _ _ _ _ |- _ => discriminate H
  end.

Ltac inv_run := repeat (inv_run_step; subst).

Lemma bind_exit {A B : Type} (m : M A) (k : A -> M B) s c :
  outcome (m s) = Exit c ->
  bind m k s = mkResult (Exit c) (final (m s)) (trace (m s)).
Proof. unfold bind. intros ->. reflexivity. Qed.

Lemma bind_throw {A B : Type} (m : M A) (k : A -> M B) s e :
  outcome (m s) = Throw e ->
  bind m k s = mkResult (Throw e) (final (m s)) (trace (m s)).
Proof. unfold bind. intros ->. reflexivity. Qed.

(** A run whose first part returns is the run of the rest. *)
Lemma bind_step_eq {A B : Type} (m : M A) (k : A -> M B) s a s1 t1 :
  runs m s a s1 t1 ->
  outcome (bind m k s) = outcome (k a s1) /\
  final (bind m k s) = final (k a s1) /\
  trace (bind m k s) = t1 ++ trace (k a s1).
Proof. intros H. rewrite (bind_step _ _ _ _ _ _ H). auto. Qed.

(** Running the first action of a sequence when its effect is known by
    computation. *)
Ltac run_prim :=
  match goal with
  | |- context [bind (gets ?f) ?k ?s] =>
      rewrite (bind_step (gets f) k s (f s) s [] eq_refl)
  | |- context [bind get ?k ?s] =>
      rewrite (bind_step get k s s s [] eq_refl)
  | |- context [bind (modify ?f) ?k ?s] =>
      rewrite (bind_step (modify f) k s tt (f s) [] eq_refl)
  | |- context [bind (emit ?e) ?k ?s] =>
      rewrite (bind_step (emit e) k s tt s [e] eq_refl)
  | |- context [bind (ret ?a) ?k ?s] =>
      rewrite (bind_step (ret a) k s a s [] eq_refl)
  end; cbv beta; cbn [outcome final trace app].

(** A loop that collects the results of a body which leaves the object
    and the trace alone. *)
Lemma foldM_collect_pure {A B : Type} (f : A -> M B) (P : A -> B -> Prop) :
  (forall x s y s1 t1, runs (f x) s y s1 t1 -> P x y /\ s1 = s /\ t1 = []) ->
  forall l acc s res s' t,
    runs (foldM (fun acc x => y <- f x ;; ret (acc ++ [y])) l acc) s res s' t ->
    exists ys, res = acc ++ ys /\ Forall2 P l ys /\ s' = s /\ t = [].
Proof.
  intros Hf. induction l as [|x rest IH]; intros acc s res s' t Hrun; simpl in Hrun.
  - inv_run. exists []. rewrite app_nil_r. auto.
  - inv_run.
    match goal with
    | H1 : runs (f x) _ ?y _ _, H2 : runs (foldM _ rest _) _ _ _ _ |- _ =>
        destruct (Hf _ _ _ _ _ H1) as [HP [-> ->]];
        destruct (IH _ _ _ _ _ H2) as [ys [-> [Hall [-> ->]]]];
        exists (y :: ys)
    end.
    rewrite <- app_assoc. simpl. auto.
Qed.

(** Inversion that also splits on the tests the computation makes. *)
Ltac inv_run_case :=
  match goal with
  | H : runs (when ?b _) _ _ _ _ |- _ => unfold when in H
  | H : runs (if ?b then _ else _) _ _ _ _ |- _ => destruct b eqn:?
  | H : runs (match ?x with _ => _ end) _ _ _ _ |- _ => destruct x eqn:?
  end.

Ltac inv_run_cases := repeat (first [inv_run_step | inv_run_case]; subst).

(** Reading a member after assignments. *)
Ltac simpl_fields :=
  cbn [numBurnIn_ numAnnealSteps_ annealStepLength_ numSamples_ sampleRate_
       trimRate_ pruneThreshold_ amScale_ knownN_ unkN_ inputFileList_
       inputFiles_ inputType_ cacheInput_ inputFsts_ symbolFile_ prefix_
       separator_ mySamples_ histories_ unkSymbolSize_ annealLevel_ lexFst_
       knownLm_ unkLm_ unkBases_ latticeLikelihood_ knownLikelihood_
       unkLikelihood_ prng_ set_numBurnIn_ set_numAnnealSteps_
       set_annealStepLength_ set_numSamples_ set_sampleRate_ set_trimRate_
       set_pruneThreshold_ set_amScale_ set_knownN_ set_unkN_
       set_inputFileList_ set_inputFiles_ set_inputType_ set_cacheInput_
       set_inputFsts_ set_symbolFile_ set_prefix_ set_separator_
       set_mySamples_ set_histories_ set_unkSymbolSize_ set_annealLevel_
       set_lexFst_ set_knownLm_ set_unkLm_ set_unkBases_
       set_latticeLikelihood_ set_knownLikelihood_ set_unkLikelihood_
       set_prng_].

Ltac simpl_fields_in H :=
  cbn [numBurnIn_ numAnnealSteps_ annealStepLength_ numSamples_ sampleRate_
       trimRate_ pruneThreshold_ amScale_ knownN_ unkN_ inputFileList_
       inputFiles_ inputType_ cacheInput_ inputFsts_ symbolFile_ prefix_
       separator_ mySamples_ histories_ unkSymbolSize_ annealLevel_ lexFst_
       knownLm_ unkLm_ unkBases_ latticeLikelihood_ knownLikelihood_
       unkLikelihood_ prng_ set_numBurnIn_ set_numAnnealSteps_
       set_annealStepLength_ set_numSamples_ set_sampleRate_ set_trimRate_
       set_pruneThreshold_ set_amScale_ set_knownN_ set_unkN_
       set_inputFileList_ set_inputFiles_ set_inputType_ set_cacheInput_
       set_inputFsts_ set_symbolFile_ set_prefix_ set_separator_
       set_mySamples_ set_histories_ set_unkSymbolSize_ set_annealLevel_
       set_lexFst_ set_knownLm_ set_unkLm_ set_unkBases_
       set_latticeLikelihood_ set_knownLikelihood_ set_unkLikelihood_
       set_prng_] in H.

(** ** Properties kept along a computation

    A judgement relates the object before, the way the computation ends,
    the object after and the trace.  When it holds of doing nothing and is
    closed under sequencing, it holds of a computation as soon as it holds
    of the assignments, outputs and stops the computation is made of. *)

Inductive Status : Type :=
| SOk
| SExit (code : Z)
| SThrow (msg : string)
| SUndefined
| SDiverge.

Definition status {A : Type} (o : Outcome A) : Status :=
  match o with
  | Ok _ => SOk
  | Exit c => SExit c
  | Throw e => SThrow e
  | Undefined => SUndefined
  | Diverge => SDiverge
  end.

Definition Judgement : Type := LatticeLM -> Status -> LatticeLM -> list Event -> Prop.

Record Compositional (J : Judgement) : Prop := {
  J_refl : forall s, J s SOk s [];
  J_trans : forall s s1 s2 t1 t2 st,
      J s SOk s1 t1 -> J s1 st s2 t2 -> J s st s2 (t1 ++ t2)
}.

Definition keeps {A : Type} (J : Judgement) (m : M A) : Prop :=
  forall s, J s (status (outcome (m s))) (final (m s)) (trace (m s)).

Section Keeping.

Variable J : Judgement.
Hypothesis HJ : Compositional J.

Lemma keeps_ret {A : Type} (a : A) : keeps J (ret a).
Proof. intros s. apply (J_refl J HJ). Qed.

Lemma keeps_get : keeps J get.
Proof. intros s. apply (J_refl J HJ). Qed.

Lemma keeps_gets {A : Type} (f : LatticeLM -> A) : keeps J (gets f).
Proof. intros s. apply (J_refl J HJ). Qed.

Lemma keeps_bind {A B : Type} (m : M A) (k : A -> M B) :
  keeps J m -> (forall a, keeps J (k a)) -> keeps J (bind m k).
Proof.
  intros Hm Hk s. specialize (Hm s). unfold bind.
  destruct (outcome (m s)) eqn:E; simpl in *; try exact Hm.
  apply (J_trans J HJ) with (s1 := final (m s)); [exact Hm | apply Hk].
Qed.

Lemma keeps_when (b : bool) (m : M unit) : keeps J m -> keeps J (when b m).
Proof. intros Hm. destruct b; [exact Hm | apply keeps_ret]. Qed.

Lemma keeps_forEach {A : Type} (l : list A) (body : A -> M unit) :
  (forall x, keeps J (body x)) -> keeps J (forEach l body).
Proof.
  intros Hb. induction l as [|x rest IH]; simpl.
  - apply keeps_ret.
  - apply keeps_bind; [apply Hb | intros _; exact IH].
Qed.

Lemma keeps_forRange (n : Z) (body : Z -> M unit) :
  (forall x, keeps J (body x)) -> keeps J (forRange n body).
Proof. intros Hb. apply keeps_forEach. exact Hb. Qed.

Lemma keeps_foldM {A B : Type} (f : B -> A -> M B) (l : list A) :
  (forall b x, keeps J (f b x)) -> forall b, keeps J (foldM f l b).
Proof.
  intros Hf. induction l as [|x rest IH]; intros b; simpl.
  - apply keeps_ret.
  - apply keeps_bind; [apply Hf | intros b'; apply IH].
Qed.

Lemma keeps_defined {A : Type} (o : option A) :
  (forall s, J s SUndefined s []) -> keeps J (defined o).
Proof. intros Hu. destruct o; [apply keeps_ret | intros s; apply Hu]. Qed.

Lemma keeps_modify (f : LatticeLM -> LatticeLM) :
  (forall s, J s SOk (f s) []) -> keeps J (modify f).
Proof. intros H s. apply H. Qed.

Lemma keeps_emit (e : Event) : (forall s, J s SOk s [e]) -> keeps J (emit e).
Proof. intros H s. apply H. Qed.

Lemma keeps_stop {A : Type} (o : Outcome A) :
  (forall s, J s (status o) s []) -> keeps J (stop o).
Proof. intros H s. apply H. Qed.

Lemma keeps_withRng {A : Type} (f : Rng -> A * Rng) :
  (forall g s, J s SOk (set_prng_ g s) []) -> keeps J (withRng f).
Proof.
  intros H. unfold withRng. apply keeps_bind; [apply keeps_get|]. intros s.
  destruct (f (prng_ s)) as [a g].
  apply keeps_bind; [apply keeps_modify; intros; apply H | intros; apply keeps_ret].
Qed.

End Keeping.

(** One structural step of a proof of [keeps]. *)
Ltac keeps_step HJ :=
  match goal with
  | |- keeps _ (bind _ _) => apply (keeps_bind _ HJ); [| intros ?]
  | |- keeps _ (ret _) => apply (keeps_ret _ HJ)
  | |- keeps _ get => apply (keeps_get _ HJ)
  | |- keeps _ (gets _) => apply (keeps_gets _ HJ)
  | |- keeps _ (when _ _) => apply (keeps_when _ HJ)
  | |- keeps _ (forEach _ _) => apply (keeps_forEach _ HJ); intros ?
  | |- keeps _ (forRange _ _) => apply (keeps_forRange _ HJ); intros ?
  | |- keeps _ (foldM _ _ _) => apply (keeps_foldM _ HJ); intros ? ?
  | |- keeps _ (defined _) => apply (keeps_defined _ HJ)
  | |- keeps _ (modify _) => apply (keeps_modify _)
  | |- keeps _ (emit _) => apply (keeps_emit _)
  | |- keeps _ (stop _) => apply (keeps_stop _)
  | |- keeps _ (exit _) => apply (keeps_stop _)
  | |- keeps _ (THROW_ERROR _) => apply (keeps_stop _)
  | |- keeps _ (withRng _) => apply (keeps_withRng _ HJ)
  | |- keeps _ (match ?x with _ => _ end) => destruct x
  | |- keeps _ (let _ := _ in _) => cbv zeta
  end.

Ltac keeps_auto HJ := repeat (keeps_step HJ).

(** Two families of judgements: every event emitted passes a test, and a
    member is left as it was. *)

Definition events_only (allowed : Event -> bool) : Judgement :=
  fun _ _ _ t => forallb allowed t = true.

Definition unchanged {A : Type} (f : LatticeLM -> A) : Judgement :=
  fun s _ s' _ => f s' = f s.

Lemma events_only_compositional allowed : Compositional (events_only allowed).
Proof.
  split; unfold events_only.
  - reflexivity.
  - intros s s1 s2 t1 t2 st H1 H2. rewrite forallb_app, H1, H2. reflexivity.
Qed.

Lemma unchanged_compositional {A : Type} (f : LatticeLM -> A) : Compositional (unchanged f).
Proof.
  split; unfold unchanged.
  - reflexivity.
  - intros s s1 s2 t1 t2 st H1 H2. rewrite H2, H1. reflexivity.
Qed.

(** The methods that are not recursive, for unfolding. *)
Ltac unfold_methods_once :=
  unfold train, trainIteration, sweep, trimIfDue, printIfDue,
    iterateSamples, singleSample, removeOld, removeSample, addSample, buildFsts,
    createInputFst, pruneFst, checkPruned, drawSample, addLikelihood,
    trimModels, trimLm, printIterationStatus, sampleParameters, sampleParametersOf,
    printSample, calculateWordBases, writeSymbols, writeLm, writeSamples, sampleLine,
    sampleWord, outputName,
    calcSentence, removeCustomers, getBasePositions, theLm, theLex,
    dieOnHelp, THROW_ERROR, exit.

Ltac unfold_methods := repeat (progress unfold_methods_once).

(** Closing the goals [keeps_auto] leaves for these two families. *)
Ltac keeps_events_base :=
  match goal with
  | |- keeps (events_only ?a) _ => keeps_auto (events_only_compositional a)
  end;
  try (intros; reflexivity).

Ltac keeps_unchanged_base :=
  match goal with
  | |- keeps (unchanged ?f) _ => keeps_auto (unchanged_compositional f)
  end;
  try (intros; reflexivity).

Lemma walkPath_events allowed f : forall fuel sid,
  keeps (events_only allowed) (walkPath fuel f sid).
Proof.
  pose proof (events_only_compositional allowed) as HJ.
  induction fuel as [|k IH]; intros sid; simpl.
  - keeps_auto HJ; intros; reflexivity.
  - keeps_auto HJ; try (intros; reflexivity). apply IH.
Qed.

Ltac keeps_events :=
  unfold_methods; keeps_events_base; try apply walkPath_events.

Lemma walkPath_unchanged {A : Type} (g : LatticeLM -> A) f :
  (forall x s, g (set_latticeLikelihood_ x s) = g s) ->
  forall fuel sid, keeps (unchanged g) (walkPath fuel f sid).
Proof.
  intros Hg. pose proof (unchanged_compositional g) as HJ.
  induction fuel as [|k IH]; intros sid; simpl.
  - keeps_auto HJ; intros; reflexivity.
  - keeps_auto HJ; try (intros; reflexivity).
    + intros s0. unfold unchanged. apply Hg.
    + apply IH.
Qed.

Ltac keeps_unchanged :=
  unfold_methods; keeps_unchanged_base;
  try (apply walkPath_unchanged; intros; reflexivity).

(** Every event emitted has a property. *)
Definition events_all (P : Event -> Prop) : Judgement :=
  fun _ _ _ t => Forall P t.

Lemma events_all_compositional P : Compositional (events_all P).
Proof.
  split; unfold events_all.
  - intros. constructor.
  - intros s s1 s2 t1 t2 st H1 H2. apply Forall_app. split; assumption.
Qed.

Ltac keeps_all :=
  unfold_methods;
  match goal with
  | |- keeps (events_all ?P) _ => keeps_auto (events_all_compositional P)
  end;
  try (intros; unfold events_all; repeat constructor).

Lemma walkPath_all P f : forall fuel sid, keeps (events_all P) (walkPath fuel f sid).
Proof.
  pose proof (events_all_compositional P) as HJ.
  induction fuel as [|k IH]; intros sid; simpl.
  - keeps_auto HJ; intros; constructor.
  - keeps_auto HJ; try (intros; constructor). apply IH.
Qed.

Lemma trace_bind_prefix {A B : Type} (m : M A) (k : A -> M B) s :
  exists rest, trace (bind m k s) = trace (m s) ++ rest.
Proof.
  unfold bind. destruct (outcome (m s)); simpl;
    try (exists []; rewrite app_nil_r; reflexivity).
  eexists. reflexivity.
Qed.

Lemma In_trace_bind {A B : Type} (m : M A) (k : A -> M B) s e :
  In e (trace (m s)) -> In e (trace (bind m k s)).
Proof.
  intros H. destruct (trace_bind_prefix m k s) as [rest ->].
  apply in_or_app. left. exact H.
Qed.

(** ** Facts about the text loader *)

(** The symbols only grow: a string keeps the id it was given, and the
    list is extended at its end by tagged strings. *)
Definition ids_extend (ids ids' : Ids) : Prop :=
  (forall k v, idHash ids !! k = Some v -> idHash ids' !! k = Some v) /\
  exists extra, idList ids' = idList ids ++ map (fun str => "x" +:+ str) extra.

Lemma ids_extend_refl ids : ids_extend ids ids.
Proof. split; [auto|]. exists []. simpl. rewrite app_nil_r. reflexivity. Qed.

Lemma ids_extend_trans a b c : ids_extend a b -> ids_extend b c -> ids_extend a c.
Proof.
  intros [H1 [e1 E1]] [H2 [e2 E2]]. split; [auto|].
  exists (e1 ++ e2). rewrite E2, E1, map_app, app_assoc. reflexivity.
Qed.

Lemma findId_extend str ids : ids_extend ids (snd (findId str ids)).
Proof.
  unfold findId. destruct (idHash ids !! str) eqn:E; simpl.
  - apply ids_extend_refl.
  - split.
    + intros k v Hk. cbn [idHash]. rewrite lookup_insert_ne; [exact Hk|]. intros ->. congruence.
    + exists [str]. reflexivity.
Qed.

Lemma findId_lookup str ids :
  idHash (snd (findId str ids)) !! str = Some (fst (findId str ids)).
Proof.
  unfold findId. destruct (idHash ids !! str) eqn:E; simpl.
  - exact E.
  - cbn [idHash]. rewrite lookup_insert_eq. rewrite map_size_insert_None by exact E.
    do 2 f_equal. lia.
Qed.

(** The labels [findId] gives to the tokens of a line, in order. *)
Fixpoint labelsOf (toks : list string) (ids : Ids) : list CharId :=
  match toks with
  | [] => []
  | str :: rest => fst (findId str ids) :: labelsOf rest (snd (findId str ids))
  end.

Fixpoint idsAfter (toks : list string) (ids : Ids) : Ids :=
  match toks with
  | [] => ids
  | str :: rest => idsAfter rest (snd (findId str ids))
  end.

Lemma idsAfter_extend toks : forall ids, ids_extend ids (idsAfter toks ids).
Proof.
  induction toks as [|str rest IH]; intros ids; simpl.
  - apply ids_extend_refl.
  - eapply ids_extend_trans; [apply findId_extend | apply IH].
Qed.

Lemma labelsOf_length toks : forall ids, List.length (labelsOf toks ids) = List.length toks.
Proof. induction toks; intros; simpl; auto. Qed.

(** Each label is the id of its token in the hash the line leaves. *)
Lemma labelsOf_lookup toks : forall ids,
  Forall2 (fun str lab => idHash (idsAfter toks ids) !! str = Some lab)
          toks (labelsOf toks ids).
Proof.
  induction toks as [|str rest IH]; intros ids; simpl; constructor.
  - destruct (idsAfter_extend rest (snd (findId str ids))) as [Hkeep _].
    apply Hkeep. apply findId_lookup.
  - apply IH.
Qed.

Lemma readTokens_state toks : forall st,
  ll_state (readTokens toks st) = ll_state st + Z.of_nat (List.length toks).
Proof.
  induction toks as [|str rest IH]; intros st; simpl.
  - lia.
  - rewrite IH. simpl. lia.
Qed.

Lemma readTokens_ids toks : forall st,
  ll_ids (readTokens toks st) = idsAfter toks (ll_ids st).
Proof.
  induction toks as [|str rest IH]; intros st; simpl; [reflexivity|].
  rewrite IH. reflexivity.
Qed.

(** The states built so far: [done] complete states and the open last one. *)
Lemma readTokens_fst toks : forall st done,
  ll_state st = Z.of_nat (List.length done) ->
  fst_states (ll_fst st) = done ++ [mkFstState None []] ->
  fst_states (ll_fst (readTokens toks st)) =
    done
    ++ imap (fun i lab =>
               mkFstState None [mkArc lab lab 0 (Z.of_nat (List.length done + i) + 1)])
            (labelsOf toks (ll_ids st))
    ++ [mkFstState None []]
  /\ fst_start (ll_fst (readTokens toks st)) = fst_start (ll_fst st).
Proof.
  induction toks as [|str rest IH]; intros st done Hst Hfst; simpl.
  - split; [exact Hfst | reflexivity].
  - set (lab := fst (findId str (ll_ids st))).
    set (arc := mkArc lab lab 0 (ll_state st + 1)).
    specialize (IH (mkLineLoop (ll_state st + 1) (snd (findId str (ll_ids st)))
                               (AddArc (AddState (ll_fst st)) (ll_state st) arc))
                   (done ++ [mkFstState None [arc]])).
    destruct IH as [IH1 IH2].
    + simpl. rewrite length_app. simpl. lia.
    + simpl. rewrite Hfst, Hst, Nat2Z.id.
      rewrite <- !app_assoc. simpl.
      rewrite <- (Nat.add_0_r (List.length done)) at 1.
      rewrite alter_app_r. reflexivity.
    + simpl in IH1, IH2. split; [|exact IH2].
      rewrite IH1. rewrite <- app_assoc. simpl. f_equal. f_equal.
      * unfold arc. rewrite Hst. do 3 f_equal. lia.
      * f_equal. apply imap_ext. intros i x _. simpl.
        rewrite length_app. simpl. do 4 f_equal. lia.
Qed.

Lemma set_inputFsts_inputFsts v s : inputFsts_ (set_inputFsts_ v s) = v.
Proof. reflexivity. Qed.

Lemma set_inputFsts_twice v w s : set_inputFsts_ w (set_inputFsts_ v s) = set_inputFsts_ w s.
Proof. reflexivity. Qed.

Lemma set_inputFsts_same s : set_inputFsts_ (inputFsts_ s) s = s.
Proof. destruct s; reflexivity. Qed.

(** The transducer [loadLine] builds is the linear one. *)
Lemma lineFst_linear toks ids :
  SetFinal (ll_fst (readTokens toks (mkLineLoop 0 ids (SetStart (AddState emptyFst) 0))))
           (ll_state (readTokens toks (mkLineLoop 0 ids (SetStart (AddState emptyFst) 0))))
           0
  = linearFst (labelsOf toks ids).
Proof.
  set (st0 := mkLineLoop 0 ids (SetStart (AddState emptyFst) 0)).
  destruct (readTokens_fst toks st0 []) as [Hstates Hstart]; [reflexivity | reflexivity |].
  simpl in Hstates, Hstart.
  unfold SetFinal, linearFst. rewrite Hstart, Hstates, readTokens_state.
  set (body := imap _ (labelsOf toks ids)).
  assert (Hidx : Z.to_nat (ll_state st0 + Z.of_nat (List.length toks))
                 = (List.length body + 0)%nat).
  { unfold body. rewrite length_imap, labelsOf_length. unfold st0. simpl. lia. }
  rewrite Hidx, alter_app_r. reflexivity.
Qed.

Definition emptyLine (line : string) : bool :=
  match tokens line with
  | [] => true
  | _ :: _ => false
  end.

Definition emptyLineDiagnostic (file : string) : list Event :=
  [ Cerr [Str "Empty line found in "; Str file; Endl];
    Cerr [Str "Please ensure that each line in the training file contains at least one symbol."; Endl] ].

Lemma loadLine_nonempty file ids line s :
  emptyLine line = false ->
  loadLine file ids line s =
    mkResult (Ok (idsAfter (tokens line) ids))
             (set_inputFsts_ (inputFsts_ s ++ [Some (linearFst (labelsOf (tokens line) ids))]) s)
             [].
Proof.
  unfold emptyLine, loadLine. intros Hne. cbv zeta.
  rewrite lineFst_linear, readTokens_state, readTokens_ids. simpl ll_state. simpl ll_ids.
  destruct (tokens line) as [|t ts]; [discriminate|].
  destruct (0 + Z.of_nat (List.length (t :: ts)) =? 0) eqn:E.
  - apply Z.eqb_eq in E. simpl in E. lia.
  - reflexivity.
Qed.

Lemma loadLine_empty file ids line s :
  emptyLine line = true ->
  loadLine file ids line s = mkResult (Exit 1) s (emptyLineDiagnostic file).
Proof.
  unfold emptyLine, loadLine. intros He.
  destruct (tokens line) as [|t ts]; [|discriminate]. reflexivity.
Qed.

(** What a run of lines without an empty one leaves. *)
Fixpoint idsAfterLines (lines : list string) (ids : Ids) : Ids :=
  match lines with
  | [] => ids
  | l :: rest => idsAfterLines rest (idsAfter (tokens l) ids)
  end.

Fixpoint fstsOfLines (lines : list string) (ids : Ids) : list (option VectorFst) :=
  match lines with
  | [] => []
  | l :: rest =>
      Some (linearFst (labelsOf (tokens l) ids)) :: fstsOfLines rest (idsAfter (tokens l) ids)
  end.

Lemma loadFile_ok file lines : forall ids s,
  forallb (fun l => negb (emptyLine l)) lines = true ->
  foldM (loadLine file) lines ids s =
    mkResult (Ok (idsAfterLines lines ids))
             (set_inputFsts_ (inputFsts_ s ++ fstsOfLines lines ids) s) [].
Proof.
  induction lines as [|l rest IH]; intros ids s Hall; simpl.
  - rewrite app_nil_r, set_inputFsts_same. reflexivity.
  - simpl in Hall. apply andb_prop in Hall. destruct Hall as [Hl Hrest].
    apply negb_true_iff in Hl.
    rewrite (bind_step _ _ _ _ _ _ (loadLine_nonempty file ids l s Hl)).
    rewrite IH by exact Hrest.
    simpl. rewrite <- app_assoc. reflexivity.
Qed.

Lemma loadFile_exit file lines : forall ids s,
  forallb (fun l => negb (emptyLine l)) lines = false ->
  outcome (foldM (loadLine file) lines ids s) = Exit 1 /\
  trace (foldM (loadLine file) lines ids s) = emptyLineDiagnostic file.
Proof.
  induction lines as [|l rest IH]; intros ids s Hall; simpl in *.
  - discriminate.
  - destruct (emptyLine l) eqn:El.
    + unfold bind. rewrite loadLine_empty by exact El. simpl. auto.
    + simpl in Hall.
      rewrite (bind_step _ _ _ _ _ _ (loadLine_nonempty file ids l s El)).
      simpl. apply IH. exact Hall.
Qed.

Lemma idsAfterLines_app a : forall b ids,
  idsAfterLines (a ++ b) ids = idsAfterLines b (idsAfterLines a ids).
Proof. induction a as [|l a IH]; intros; simpl; [reflexivity | apply IH]. Qed.

Lemma fstsOfLines_app a : forall b ids,
  fstsOfLines (a ++ b) ids = fstsOfLines a ids ++ fstsOfLines b (idsAfterLines a ids).
Proof. induction a as [|l a IH]; intros; simpl; [reflexivity | rewrite IH; reflexivity]. Qed.

Lemma idsAfterLines_extend lines : forall ids, ids_extend ids (idsAfterLines lines ids).
Proof.
  induction lines as [|l rest IH]; intros ids; simpl.
  - apply ids_extend_refl.
  - eapply ids_extend_trans; [apply idsAfter_extend | apply IH].
Qed.

Definition nonEmptyLines (lines : list string) : bool :=
  forallb (fun l => negb (emptyLine l)) lines.

Lemma loadFiles_ok files : forall ids s,
  nonEmptyLines (flat_map linesOf files) = true ->
  foldM loadFile files ids s =
    mkResult (Ok (idsAfterLines (flat_map linesOf files) ids))
             (set_inputFsts_ (inputFsts_ s ++ fstsOfLines (flat_map linesOf files) ids) s) [].
Proof.
  unfold nonEmptyLines.
  induction files as [|f rest IH]; intros ids s Hall; simpl.
  - rewrite app_nil_r, set_inputFsts_same. reflexivity.
  - simpl in Hall. rewrite forallb_app in Hall. apply andb_prop in Hall.
    destruct Hall as [Hf Hrest].
    assert (Hrun : runs (loadFile ids f) s (idsAfterLines (linesOf f) ids)
                     (set_inputFsts_ (inputFsts_ s ++ fstsOfLines (linesOf f) ids) s) []).
    { unfold runs, loadFile. apply loadFile_ok. exact Hf. }
    rewrite (bind_step _ _ _ _ _ _ Hrun). rewrite IH by exact Hrest.
    simpl. rewrite idsAfterLines_app, fstsOfLines_app, <- app_assoc. reflexivity.
Qed.

Lemma loadFiles_exit files : forall ids s,
  nonEmptyLines (flat_map linesOf files) = false ->
  outcome (foldM loadFile files ids s) = Exit 1 /\
  exists file,
    In file files /\ nonEmptyLines (linesOf file) = false /\
    trace (foldM loadFile files ids s) = emptyLineDiagnostic file.
Proof.
  unfold nonEmptyLines.
  induction files as [|f rest IH]; intros ids s Hall; simpl in *.
  - discriminate.
  - rewrite forallb_app in Hall.
    destruct (forallb (fun l => negb (emptyLine l)) (linesOf f)) eqn:Ef.
    + simpl in Hall.
      assert (Hrun : runs (loadFile ids f) s (idsAfterLines (linesOf f) ids)
                       (set_inputFsts_ (inputFsts_ s ++ fstsOfLines (linesOf f) ids) s) []).
      { unfold runs, loadFile. apply loadFile_ok. exact Ef. }
      rewrite (bind_step _ _ _ _ _ _ Hrun). simpl.
      destruct (IH (idsAfterLines (linesOf f) ids)
                   (set_inputFsts_ (inputFsts_ s ++ fstsOfLines (linesOf f) ids) s) Hall)
        as [Ho [file [Hin [Hfile Ht]]]].
      split; [exact Ho|]. exists file. auto.
    + destruct (loadFile_exit f (linesOf f) ids s Ef) as [Ho Ht].
      unfold bind, loadFile. rewrite Ho. simpl. split; [reflexivity|].
      exists f. auto.
Qed.

(** The id of a token in a hash. *)
Definition charId (ids : Ids) (tok : string) : CharId :=
  default 0 (idHash ids !! tok).

Lemma labelsOf_final toks ids final :
  ids_extend (idsAfter toks ids) final ->
  labelsOf toks ids = map (charId final) toks.
Proof.
  intros [Hkeep _]. pose proof (labelsOf_lookup toks ids) as H.
  induction H as [|str lab toks' labs Hhead Htail IH]; simpl; [reflexivity|].
  f_equal; [|exact IH].
  unfold charId. rewrite (Hkeep _ _ Hhead). reflexivity.
Qed.

Lemma fstsOfLines_final lines : forall ids final,
  ids_extend (idsAfterLines lines ids) final ->
  fstsOfLines lines ids =
    map (fun l => Some (linearFst (map (charId final) (tokens l)))) lines.
Proof.
  induction lines as [|l rest IH]; intros ids final Hext; simpl; [reflexivity|].
  simpl in Hext. f_equal.
  - f_equal. f_equal. apply labelsOf_final.
    eapply ids_extend_trans; [apply idsAfterLines_extend | exact Hext].
  - apply IH. exact Hext.
Qed.

Lemma tokens_known lines : forall ids l tok,
  In l lines -> In tok (tokens l) -> is_Some (idHash (idsAfterLines lines ids) !! tok).
Proof.
  induction lines as [|l0 rest IH]; intros ids l tok Hl Htok; simpl in *; [contradiction|].
  destruct Hl as [-> | Hl].
  - destruct (idsAfterLines_extend rest (idsAfter (tokens l) ids)) as [Hkeep _].
    pose proof (labelsOf_lookup (tokens l) ids) as H.
    apply list_elem_of_In in Htok.
    destruct (proj1 (list_elem_of_lookup _ _) Htok) as [i Hi].
    destruct (Forall2_lookup_l _ _ _ _ _ H Hi) as [lab [_ Hlab]].
    exists lab. apply Hkeep. exact Hlab.
  - eapply IH; eauto.
Qed.

(** The symbols before the loop over the files. *)
Definition initialIds : Ids :=
  let ids0 := mkIds ∅ [] in
  let ids1 := snd (findId "<eps>" ids0) in
  let ids2 := snd (findId "<phi>" ids1) in
  mkIds (idHash ids2) (idList ids2 ++ ["x<unk>"%string; "x</unk>"%string]).

Lemma initialIds_list :
  idList initialIds = ["x<eps>"; "x<phi>"; "x<unk>"; "x</unk>"]%string.
Proof. reflexivity. Qed.

Lemma loadTextIds_fold s :
  loadTextIds s = foldM loadFile (inputFiles_ s) initialIds s.
Proof.
  unfold loadTextIds, bind. simpl. symmetry.
  apply (result_eta (foldM loadFile (inputFiles_ s) initialIds s)).
Qed.

(** ** The text loader: sentences and the symbol table *)

Lemma nonEmptyLines_true lines :
  nonEmptyLines lines = true <-> Forall (fun l => tokens l <> []) lines.
Proof.
  unfold nonEmptyLines. rewrite forallb_forall, List.Forall_forall.
  split; intros H l Hl; specialize (H l Hl); unfold emptyLine in *;
    destruct (tokens l); simpl in *; congruence.
Qed.

Lemma nonEmptyLines_false lines :
  nonEmptyLines lines = false <-> Exists (fun l => tokens l = []) lines.
Proof.
  split.
  - intros H. induction lines as [|l rest IH]; simpl in H; [discriminate|].
    unfold nonEmptyLines in H. simpl in H.
    destruct (emptyLine l) eqn:E.
    + left. unfold emptyLine in E. destruct (tokens l); [reflexivity | discriminate].
    + right. apply IH. exact H.
  - intros H. destruct (nonEmptyLines lines) eqn:E; [|reflexivity].
    apply nonEmptyLines_true in E. apply List.Exists_exists in H.
    destruct H as [l [Hl Hempty]]. rewrite List.Forall_forall in E.
    exfalso. exact (E l Hl Hempty).
Qed.

Lemma linearFst_shape (labels : list CharId) :
  NumStates (linearFst labels) = sizeZ labels + 1 /\
  fst_start (linearFst labels) = 0 /\
  (forall i lab, labels !! i = Some lab ->
     fst_states (linearFst labels) !! i
     = Some (mkFstState None [mkArc lab lab 0 (Z.of_nat i + 1)])) /\
  fst_states (linearFst labels) !! List.length labels = Some (mkFstState (Some 0%Q) []).
Proof.
  unfold linearFst, NumStates, sizeZ. simpl.
  set (f := fun (i : nat) (lab : Z) => mkFstState None [mkArc lab lab 0 (Z.of_nat i + 1)]).
  split; [|split; [reflexivity | split]].
  - rewrite length_app, length_imap. simpl. lia.
  - intros i lab Hi. rewrite lookup_app_l.
    + rewrite list_lookup_imap, Hi. reflexivity.
    + rewrite length_imap. eapply lookup_lt_Some. exact Hi.
  - rewrite lookup_app_r by (rewrite length_imap; lia).
    rewrite length_imap, Nat.sub_diag. reflexivity.
Qed.

(** C6.  In text mode the lines of the input files are read in order.
    If one of them holds no token, [loadText] ends the process with exit
    code 1 after the two-line diagnostic naming a file with such a line,
    and so does [loadProperties], before any training.  If every line
    holds a token, [loadText] returns, and appends to [inputFsts_] one
    linear transducer per line: a state per token and one more, from each
    state an arc to the next carrying the token's CharId on both tapes
    with weight 0, and the last state final with weight 0. *)
Theorem loadText_lines (s : LatticeLM) :
  let lines := flat_map linesOf (inputFiles_ s) in
  (Exists (fun l => tokens l = []) lines ->
     (outcome (loadText s) = Exit 1 /\
      exists file,
        In file (inputFiles_ s) /\ Exists (fun l => tokens l = []) (linesOf file) /\
        trace (loadText s) = emptyLineDiagnostic file) /\
     (forall argv s0 t0,
        runs (readArguments argv) s0 tt s t0 -> inputType_ s <> INPUT_FST ->
        outcome (loadProperties argv s0) = Exit 1 /\
        exists file, trace (loadProperties argv s0) = t0 ++ emptyLineDiagnostic file))
  /\
  (Forall (fun l => tokens l <> []) lines ->
     exists ids,
       runs loadText s (idList ids ++ ["w<s>"%string])
            (set_inputFsts_
               (inputFsts_ s
                ++ map (fun l => Some (linearFst (map (charId ids) (tokens l)))) lines) s)
            []
       /\ forall l tok, In l lines -> In tok (tokens l) -> is_Some (idHash ids !! tok))
  /\
  (forall labels : list CharId,
     NumStates (linearFst labels) = sizeZ labels + 1 /\
     fst_start (linearFst labels) = 0 /\
     (forall i lab, labels !! i = Some lab ->
        fst_states (linearFst labels) !! i
        = Some (mkFstState None [mkArc lab lab 0 (Z.of_nat i + 1)])) /\
     fst_states (linearFst labels) !! List.length labels = Some (mkFstState (Some 0%Q) [])).
Proof.
  intros lines. split; [|split; [|apply linearFst_shape]].
  - intros Hex. apply nonEmptyLines_false in Hex.
    assert (Hload : forall s1, inputFiles_ s1 = inputFiles_ s ->
              outcome (loadText s1) = Exit 1 /\
              exists file,
                In file (inputFiles_ s) /\ Exists (fun l => tokens l = []) (linesOf file) /\
                trace (loadText s1) = emptyLineDiagnostic file).
    { intros s1 Hfiles.
      destruct (loadFiles_exit (inputFiles_ s1) initialIds s1) as [Ho [file [Hin [Hf Ht]]]].
      { rewrite Hfiles. exact Hex. }
      rewrite <- loadTextIds_fold in Ho, Ht.
      unfold loadText. rewrite (bind_exit _ _ _ _ Ho). simpl.
      split; [reflexivity|]. exists file.
      rewrite <- Hfiles. split; [exact Hin|]. split; [|exact Ht].
      apply nonEmptyLines_false. exact Hf. }
    split; [apply Hload; reflexivity|].
    intros argv s0 t0 Hargs Hty.
    unfold loadProperties. rewrite (bind_step _ _ _ _ _ _ Hargs). simpl.
    set (s1 := set_lexFst_ (Some (LexFst_setSeparator LexFst_new (separator_ s))) s).
    destruct (Hload s1 eq_refl) as [Ho [file [_ [_ Ht]]]].
    assert (Hin : outcome (loadInput s) = Exit 1 /\ trace (loadInput s) = emptyLineDiagnostic file).
    { unfold loadInput. repeat run_prim. fold s1.
      change (inputType_ s1) with (inputType_ s).
      destruct (inputType_ s =? INPUT_FST) eqn:E; [apply Z.eqb_eq in E; contradiction|].
      rewrite (bind_exit (bind loadText _) _ s1 1).
      - rewrite (bind_exit loadText _ s1 1 Ho). simpl. rewrite Ht. auto.
      - rewrite (bind_exit loadText _ s1 1 Ho). reflexivity. }
    destruct Hin as [Ho' Ht'].
    rewrite (bind_exit _ _ _ _ Ho'). cbn [outcome trace final]. split; [reflexivity|].
    exists file. rewrite Ht'. reflexivity.
  - intros Hall. apply nonEmptyLines_true in Hall.
    exists (idsAfterLines lines initialIds). split.
    + unfold runs, loadText, bind. rewrite loadTextIds_fold.
      rewrite loadFiles_ok by exact Hall. simpl.
      rewrite (fstsOfLines_final _ _ (idsAfterLines (flat_map linesOf (inputFiles_ s)) initialIds))
        by apply ids_extend_refl.
      reflexivity.
    + intros l tok. apply tokens_known.
Qed.

Lemma lookup_map_some {A B : Type} (f : A -> B) (l : list A) : forall i,
  (i < List.length l)%nat -> exists c, map f l !! i = Some (f c).
Proof.
  induction l as [|x rest IH]; intros i Hi; simpl in Hi; [lia|].
  destruct i as [|i]; simpl.
  - exists x. reflexivity.
  - apply IH. lia.
Qed.

Lemma loadText_inv s perm s' t :
  runs loadText s perm s' t ->
  exists extra : list string,
    perm = ["x<eps>"; "x<phi>"; "x<unk>"; "x</unk>"]%string
           ++ map (fun str => "x" +:+ str) extra ++ ["w<s>"%string].
Proof.
  intros Hrun. unfold loadText in Hrun. inv_run.
  unfold runs in Hrun0. rewrite loadTextIds_fold in Hrun0.
  destruct (nonEmptyLines (flat_map linesOf (inputFiles_ s))) eqn:E.
  - rewrite loadFiles_ok in Hrun0 by exact E.
    injection Hrun0 as <- _ _.
    destruct (idsAfterLines_extend (flat_map linesOf (inputFiles_ s)) initialIds)
      as [_ [extra Hextra]].
    exists extra. rewrite Hextra, initialIds_list, <- app_assoc. reflexivity.
  - destruct (loadFiles_exit _ initialIds s E) as [Ho _].
    rewrite Hrun0 in Ho. discriminate Ho.
Qed.

Lemma sampleWord_inv symbols w s tok s' t :
  runs (sampleWord symbols w) s tok s' t ->
  (exists tag, nthZ symbols w = Some (String tag tok)) /\ s' = s /\ t = [].
Proof.
  unfold sampleWord. intros Hrun. inv_run_cases.
  split; [|auto].
  match goal with
  | H : substr1 ?sym = Some _ |- _ =>
      destruct sym as [|tag rest]; simpl in H; [discriminate|];
      injection H as Heq; subst; exists tag; assumption
  end.
Qed.

Lemma sampleLine_inv symbols h s line s' t :
  runs (sampleLine symbols h) s line s' t ->
  (exists toks,
     line = joinWith " " toks /\
     Forall2 (fun w tok => exists tag, nthZ symbols w = Some (String tag tok)) h toks)
  /\ s' = s /\ t = [].
Proof.
  unfold sampleLine. intros Hrun. inv_run.
  match goal with
  | H : runs (foldM _ _ _) _ _ _ _ |- _ =>
      destruct (foldM_collect_pure (sampleWord symbols) _ (sampleWord_inv symbols) _ _ _ _ _ _ H)
        as [toks [-> [Hall [-> ->]]]]
  end.
  split; [|auto]. exists toks. auto.
Qed.

(** C9.  The table [loadText] returns starts with the tagged epsilon and
    phi at positions 0 and 1; then come U entries tagged [x], which are
    the two unknown-word brackets followed by the characters in the order
    of their first occurrence; then, at position 2+U, the word marker,
    tagged [w], which ends the table.  When the samples are written the
    word at each position of a history is looked up in the symbols handed
    to [writeSamples] and written without its first character, blanks in
    between. *)
Theorem symbol_table_layout :
  (forall s perm s' t,
     runs loadText s perm s' t ->
     exists chars : list string,
       let U := List.length chars in
       perm = ["x<eps>"; "x<phi>"]%string ++ map (fun c => "x" +:+ c) chars ++ ["w<s>"%string] /\
       perm !! 0%nat = Some "x<eps>"%string /\
       perm !! 1%nat = Some "x<phi>"%string /\
       (forall i, (2 <= i < 2 + U)%nat -> exists c, perm !! i = Some ("x" +:+ c)) /\
       perm !! (2 + U)%nat = Some ("w" +:+ "<s>") /\
       List.length perm = (2 + U + 1)%nat)
  /\
  (forall symbols fileName iter s s' t,
     runs (writeSamples symbols fileName iter) s tt s' t ->
     exists name lines,
       t = [Cerr [Str "  Writing samples to "; Str name; Endl]; EvFileWrite name lines] /\
       Forall2 (fun h line =>
                  exists toks,
                    line = joinWith " " toks /\
                    Forall2 (fun w tok => exists tag, nthZ symbols w = Some (String tag tok))
                            h toks)
               (histories_ s) lines).
Proof.
  split.
  - intros s perm s' t Hrun. destruct (loadText_inv _ _ _ _ Hrun) as [extra ->].
    exists ("<unk>" :: "</unk>" :: extra)%string. cbv zeta.
    split; [reflexivity|]. split; [reflexivity|]. split; [reflexivity|].
    split; [|split].
    + intros i Hi. simpl in Hi.
      destruct (lookup_map_some (fun c => "x" +:+ c) ("<unk>" :: "</unk>" :: extra)%string (i - 2))
        as [c Hc]; [simpl; lia|].
      exists c.
      change (["x<eps>"; "x<phi>"; "x<unk>"; "x</unk>"]%string
              ++ map (fun str => "x" +:+ str) extra ++ ["w<s>"%string])
        with (["x<eps>"; "x<phi>"]%string
              ++ (map (fun c => "x" +:+ c) ("<unk>" :: "</unk>" :: extra)%string ++ ["w<s>"%string])).
      rewrite (lookup_app_r ["x<eps>"; "x<phi>"]%string) by (simpl; lia).
      simpl List.length.
      rewrite lookup_app_l by (rewrite length_map; simpl; lia).
      exact Hc.
    + simpl. rewrite lookup_app_r by (rewrite length_map; lia).
      rewrite length_map, Nat.sub_diag. reflexivity.
    + simpl. rewrite length_app, length_map. simpl. lia.
  - intros symbols fileName iter s s' t Hrun. unfold writeSamples, outputName in Hrun.
    inv_run.
    match goal with
    | H : runs (foldM _ _ _) _ _ _ _ |- _ =>
        destruct (foldM_collect_pure (sampleLine symbols) _ (sampleLine_inv symbols) _ _ _ _ _ _ H)
          as [lines [-> [Hall [-> ->]]]]
    end.
    eexists. exists lines. split; [reflexivity | exact Hall].
Qed.

(** ** One resample: pruning and the collapse check *)

(** Events of drawing a sample and of seating it. *)
Definition notSampling (e : Event) : bool :=
  match e with
  | EvSampGen _ _ _ => false
  | EvCalcSentence _ _ _ _ => false
  | _ => true
  end.

Definition notPrune (e : Event) : bool :=
  match e with
  | EvPrune _ => false
  | _ => true
  end.

Lemma keeps_run {A : Type} (J : Judgement) (m : M A) s a s' t :
  keeps J m -> runs m s a s' t -> J s SOk s' t.
Proof. intros Hk Hrun. specialize (Hk s). rewrite Hrun in Hk. exact Hk. Qed.

Lemma removeOld_notSampling sentId : keeps (events_only notSampling) (removeOld sentId).
Proof. keeps_events. Qed.

Lemma buildFsts_notSampling sentId : keeps (events_only notSampling) (buildFsts sentId).
Proof. keeps_events. Qed.

Lemma pruneFst_notSampling c : keeps (events_only notSampling) (pruneFst c).
Proof. keeps_events. Qed.

Lemma removeOld_histories sentId : keeps (unchanged histories_) (removeOld sentId).
Proof. keeps_unchanged. Qed.

Lemma buildFsts_histories sentId : keeps (unchanged histories_) (buildFsts sentId).
Proof. keeps_unchanged. Qed.

Lemma removeOld_pruneThreshold sentId : keeps (unchanged pruneThreshold_) (removeOld sentId).
Proof. keeps_unchanged. Qed.

Lemma buildFsts_pruneThreshold sentId : keeps (unchanged pruneThreshold_) (buildFsts sentId).
Proof. keeps_unchanged. Qed.

Lemma removeOld_notPrune sentId : keeps (events_only notPrune) (removeOld sentId).
Proof. keeps_events. Qed.

Lemma buildFsts_notPrune sentId : keeps (events_only notPrune) (buildFsts sentId).
Proof. keeps_events. Qed.

Lemma buildFsts_inv sentId s c s' t :
  runs (buildFsts sentId) s c s' t ->
  exists lex known unk,
    lexFst_ s' = Some lex /\ knownLm_ s' = Some known /\ unkLm_ s' = Some unk /\
    ilFst c = ComposeLex (inputFst c) lex /\
    pylmFst c = PylmFst known unk (unkSymbolSize_ s') /\
    ilpFst c = ComposePhi (ilFst c) (pylmFst c).
Proof.
  unfold buildFsts, theLex, theLm. intros Hrun. inv_run.
  simpl in *. eauto 10.
Qed.

Lemma pruneFst_inv c s prunedFst s' t :
  runs (pruneFst c) s prunedFst s' t ->
  s' = s /\
  ((nonzero (pruneThreshold_ s) = true /\ t = [EvPrune (pruneThreshold_ s)] /\
    prunedFst = Prune (ilpFst c) (pruneThreshold_ s))
   \/
   (nonzero (pruneThreshold_ s) = false /\ t = [] /\ prunedFst = expand (ilpFst c))).
Proof.
  unfold pruneFst. intros Hrun. inv_run_cases; simpl; auto.
Qed.

Definition collapseDump (c : Composed) : list Event :=
  [ EvFstWrite "inputFst.fst" (inputFst c);
    EvFstWrite "ilFst.fst" (expand (ilFst c));
    EvFstWrite "ilpFst.fst" (expand (ilpFst c));
    EvFstWrite "pylmFst.fst" (expand (pylmFst c)) ].

Lemma checkPruned_collapse c prunedFst s :
  NumStates prunedFst <= 1 ->
  checkPruned c prunedFst s = mkResult (Throw collapseMessage) s (collapseDump c).
Proof.
  intros Hle. apply Z.leb_le in Hle. unfold checkPruned. rewrite Hle. reflexivity.
Qed.

Lemma checkPruned_pass c prunedFst s :
  1 < NumStates prunedFst ->
  checkPruned c prunedFst s = mkResult (Ok tt) s [].
Proof.
  intros Hlt. apply Z.leb_gt in Hlt. unfold checkPruned. rewrite Hlt. reflexivity.
Qed.

(** C5.  When the resample of a sequence has removed the old analysis,
    built the transducers and pruned, and the result has one state or
    fewer, [singleSample] writes the input, its composition with the
    lexicon, the full composition and the language-model view to the four
    files and raises the error with the diagnostic.  Nothing is sampled
    and nothing is seated for the sequence, and its history stays as it
    was. *)
Theorem singleSample_collapse sentId annealLevel s s0 t0 c s1 t1 prunedFst s2 t2 :
  runs (removeOld sentId) s tt s0 t0 ->
  runs (buildFsts sentId) s0 c s1 t1 ->
  runs (pruneFst c) s1 prunedFst s2 t2 ->
  NumStates prunedFst <= 1 ->
  outcome (singleSample sentId annealLevel s) = Throw collapseMessage /\
  trace (singleSample sentId annealLevel s) = t0 ++ t1 ++ t2 ++ collapseDump c /\
  (exists lex known unk,
     lexFst_ s1 = Some lex /\ knownLm_ s1 = Some known /\ unkLm_ s1 = Some unk /\
     ilFst c = ComposeLex (inputFst c) lex /\
     pylmFst c = PylmFst known unk (unkSymbolSize_ s1) /\
     ilpFst c = ComposePhi (ilFst c) (pylmFst c)) /\
  forallb notSampling (trace (singleSample sentId annealLevel s)) = true /\
  histories_ (final (singleSample sentId annealLevel s)) = histories_ s.
Proof.
  intros Hrem Hbuild Hprune Hle.
  assert (Hrun : singleSample sentId annealLevel s =
                 mkResult (Throw collapseMessage) s2 (t0 ++ t1 ++ t2 ++ collapseDump c)).
  { unfold singleSample.
    rewrite (bind_step _ _ _ _ _ _ Hrem).
    rewrite (bind_step _ _ _ _ _ _ Hbuild).
    rewrite (bind_step _ _ _ _ _ _ Hprune).
    rewrite (bind_throw (checkPruned c prunedFst) _ s2 collapseMessage)
      by (rewrite checkPruned_collapse by exact Hle; reflexivity).
    rewrite checkPruned_collapse by exact Hle. reflexivity. }
  rewrite Hrun. cbn [outcome trace final].
  split; [reflexivity|]. split; [reflexivity|].
  split; [exact (buildFsts_inv _ _ _ _ _ Hbuild)|].
  split.
  - rewrite !forallb_app.
    rewrite (keeps_run _ _ _ _ _ _ (removeOld_notSampling sentId) Hrem).
    rewrite (keeps_run _ _ _ _ _ _ (buildFsts_notSampling sentId) Hbuild).
    rewrite (keeps_run _ _ _ _ _ _ (pruneFst_notSampling c) Hprune).
    reflexivity.
  - destruct (pruneFst_inv _ _ _ _ _ Hprune) as [-> _].
    rewrite (keeps_run _ _ _ _ _ _ (buildFsts_histories sentId) Hbuild).
    exact (keeps_run _ _ _ _ _ _ (removeOld_histories sentId) Hrem).
Qed.

(** What follows pruning in [singleSample]. *)
Definition resampleTail (c : Composed) (prunedFst : VectorFst) (sentId : Z)
    (annealLevel : Q) : M unit :=
  checkPruned c prunedFst ;;
  sampledFst <- drawSample sentId prunedFst annealLevel ;;
  addSample sentId ;;
  addLikelihood sampledFst.

Lemma singleSample_steps sentId annealLevel s s0 t0 c s1 t1 prunedFst s2 t2 :
  runs (removeOld sentId) s tt s0 t0 ->
  runs (buildFsts sentId) s0 c s1 t1 ->
  runs (pruneFst c) s1 prunedFst s2 t2 ->
  outcome (singleSample sentId annealLevel s)
    = outcome (resampleTail c prunedFst sentId annealLevel s2) /\
  final (singleSample sentId annealLevel s)
    = final (resampleTail c prunedFst sentId annealLevel s2) /\
  trace (singleSample sentId annealLevel s)
    = t0 ++ t1 ++ t2 ++ trace (resampleTail c prunedFst sentId annealLevel s2).
Proof.
  intros Hrem Hbuild Hprune. unfold singleSample.
  rewrite (bind_step _ _ _ _ _ _ Hrem).
  rewrite (bind_step _ _ _ _ _ _ Hbuild).
  rewrite (bind_step _ _ _ _ _ _ Hprune).
  cbn [outcome final trace]. auto.
Qed.

Lemma pruneFst_total c s :
  runs (pruneFst c) s
       (if nonzero (pruneThreshold_ s)
        then Prune (ilpFst c) (pruneThreshold_ s) else expand (ilpFst c))
       s
       (if nonzero (pruneThreshold_ s) then [EvPrune (pruneThreshold_ s)] else []).
Proof.
  unfold runs, pruneFst. run_prim.
  destruct (nonzero (pruneThreshold_ s)); reflexivity.
Qed.

(** After pruning, nothing is pruned again, and the sampler is only ever
    given the transducer the pruning step produced. *)
Definition afterPruning (prunedFst : VectorFst) (annealLevel : Q) (e : Event) : Prop :=
  match e with
  | EvPrune _ => False
  | EvSampGen f n a => f = prunedFst /\ n = 1 /\ a = annealLevel
  | _ => True
  end.

Definition beforePruning (e : Event) : Prop :=
  match e with
  | EvPrune _ => False
  | EvSampGen _ _ _ => False
  | _ => True
  end.

Lemma resampleTail_afterPruning c prunedFst sentId annealLevel :
  keeps (events_all (afterPruning prunedFst annealLevel))
        (resampleTail c prunedFst sentId annealLevel).
Proof.
  unfold resampleTail. keeps_all; simpl; auto.
  apply walkPath_all.
Qed.

Lemma removeOld_beforePruning sentId : keeps (events_all beforePruning) (removeOld sentId).
Proof. keeps_all; simpl; auto. Qed.

Lemma buildFsts_beforePruning sentId : keeps (events_all beforePruning) (buildFsts sentId).
Proof. keeps_all; simpl; auto. Qed.

Lemma resampleTail_samples c prunedFst sentId annealLevel s :
  1 < NumStates prunedFst ->
  In (EvSampGen prunedFst 1 annealLevel)
     (trace (resampleTail c prunedFst sentId annealLevel s)).
Proof.
  intros Hlt. unfold resampleTail.
  rewrite (bind_step _ _ _ _ _ _ (checkPruned_pass c prunedFst s Hlt)).
  cbn [trace app]. apply In_trace_bind. unfold drawSample.
  run_prim. left. reflexivity.
Qed.

Lemma nonzero_true x : nonzero x = true <-> ~ (x == 0)%Q.
Proof.
  unfold nonzero. rewrite negb_true_iff. split.
  - intros H. apply Qeq_bool_neq. exact H.
  - intros H. destruct (Qeq_bool x 0) eqn:E; [|reflexivity].
    apply Qeq_bool_eq in E. contradiction.
Qed.

Lemma nonzero_false x : nonzero x = false <-> (x == 0)%Q.
Proof.
  unfold nonzero. rewrite negb_false_iff. split.
  - apply Qeq_bool_eq.
  - apply Qeq_eq_bool.
Qed.

(** C8, as the code has it.  Once the resample of a sequence has removed
    the old analysis and built the transducers, the composed transducer is
    pruned exactly when [pruneThreshold_] is not 0, by that threshold; the
    sampler is only ever given the result of that step, which is the pruned
    transducer when the threshold is not 0 and the full composed one when
    it is 0; and when that transducer has more than one state the sampler
    is called on it. *)
Theorem pruning_switch sentId annealLevel s s0 t0 c s1 t1 :
  runs (removeOld sentId) s tt s0 t0 ->
  runs (buildFsts sentId) s0 c s1 t1 ->
  let threshold := pruneThreshold_ s in
  let used := if nonzero threshold then Prune (ilpFst c) threshold else expand (ilpFst c) in
  let t := trace (singleSample sentId annealLevel s) in
  ((exists x, In (EvPrune x) t) <-> ~ (threshold == 0)%Q) /\
  (forall x, In (EvPrune x) t -> x = threshold) /\
  (forall f n a, In (EvSampGen f n a) t -> f = used /\ n = 1 /\ a = annealLevel) /\
  (1 < NumStates used -> In (EvSampGen used 1 annealLevel) t) /\
  ((threshold == 0)%Q -> used = expand (ilpFst c)).
Proof.
  intros Hrem Hbuild threshold used t.
  assert (Hthr : pruneThreshold_ s1 = threshold).
  { unfold threshold.
    rewrite (keeps_run _ _ _ _ _ _ (buildFsts_pruneThreshold sentId) Hbuild).
    exact (keeps_run _ _ _ _ _ _ (removeOld_pruneThreshold sentId) Hrem). }
  pose proof (pruneFst_total c s1) as Hprune. rewrite Hthr in Hprune. fold used in Hprune.
  destruct (singleSample_steps sentId annealLevel _ _ _ _ _ _ _ _ _ Hrem Hbuild Hprune)
    as [_ [_ Ht]].
  fold t in Ht.
  pose proof (keeps_run _ _ _ _ _ _ (removeOld_beforePruning sentId) Hrem) as H0.
  pose proof (keeps_run _ _ _ _ _ _ (buildFsts_beforePruning sentId) Hbuild) as H1.
  pose proof (resampleTail_afterPruning c used sentId annealLevel s1) as H3.
  unfold events_all in H0, H1, H3. rewrite List.Forall_forall in H0, H1, H3.
  assert (Hcases : forall e, In e t ->
            beforePruning e \/ (nonzero threshold = true /\ e = EvPrune threshold)
            \/ afterPruning used annealLevel e).
  { intros e He. rewrite Ht in He.
    apply in_app_or in He. destruct He as [He|He]; [left; auto|].
    apply in_app_or in He. destruct He as [He|He]; [left; auto|].
    apply in_app_or in He. destruct He as [He|He]; [|right; right; auto].
    destruct (nonzero threshold); simpl in He; [|contradiction].
    destruct He as [<-|[]]. right. left. auto. }
  split; [split|split; [|split; [|split]]].
  - intros [x Hx]. apply nonzero_true.
    destruct (Hcases _ Hx) as [Hb|[[Hnz _]|Ha]]; simpl in *; tauto.
  - intros Hnz. apply nonzero_true in Hnz. exists threshold.
    rewrite Ht. apply in_or_app. right. apply in_or_app. right.
    apply in_or_app. left. rewrite Hnz. left. reflexivity.
  - intros x Hx. destruct (Hcases _ Hx) as [Hb|[[_ He]|Ha]]; simpl in *; try tauto.
    congruence.
  - intros f n a He. destruct (Hcases _ He) as [Hb|[[_ Heq]|Ha]]; simpl in *; try tauto.
    discriminate.
  - intros Hlt. rewrite Ht. apply in_or_app. right. apply in_or_app. right.
    apply in_or_app. right. apply resampleTail_samples. exact Hlt.
  - intros Hz. apply nonzero_false in Hz. unfold used. rewrite Hz. reflexivity.
Qed.

(** ** One resample: the calls into the language models *)


Lemma calcSentence_inv lm ws bases doAdd s p s' t :
  runs (calcSentence lm ws bases doAdd) s p s' t ->
  exists m,
    lmOf lm s = Some m /\
    p = fst (fst (PyLM_calcSentence m ws bases doAdd (prng_ s))) /\
    s' = setLm lm (snd (fst (PyLM_calcSentence m ws bases doAdd (prng_ s))))
               (set_prng_ (snd (PyLM_calcSentence m ws bases doAdd (prng_ s))) s) /\
    t = [EvCalcSentence lm ws bases doAdd].
Proof.
  unfold calcSentence, theLm. intros Hrun. inv_run.
  eexists. split; [eassumption|]. split; [reflexivity|]. split; reflexivity.
Qed.



(** The probabilities the character model returns for a list of spellings
    scored one after the other without seating. *)
Fixpoint scoreSpellings (unk : PyLM) (g : Rng) (bases : list LMProb)
    (spellings : list (list CharId)) : list LMProb :=
  match spellings with
  | [] => []
  | cs :: rest =>
      let out := PyLM_calcSentence unk cs bases false g in
      fst (fst out) :: scoreSpellings (snd (fst out)) (snd out) bases rest
  end.


(** Members a call on the character model leaves alone. *)
Definition sameButUnk (s s' : LatticeLM) : Prop :=
  histories_ s' = histories_ s /\ lexFst_ s' = lexFst_ s /\
  knownLm_ s' = knownLm_ s /\ unkBases_ s' = unkBases_ s.



Lemma nthZ_app_middle {A : Type} (pre suf : list A) (x : A) :
  nthZ (pre ++ x :: suf) (Z.of_nat (List.length pre)) = Some x.
Proof.
  unfold nthZ. destruct (Z.of_nat (List.length pre) <? 0) eqn:E.
  - apply Z.ltb_lt in E. lia.
  - rewrite Nat2Z.id. rewrite lookup_app_r by lia. rewrite Nat.sub_diag. reflexivity.
Qed.

Lemma seqZ_of_nat_S (k : Z) (m : nat) :
  seqZ k (Z.of_nat (S m)) = k :: seqZ (k + 1) (Z.of_nat m).
Proof.
  rewrite seqZ_cons by lia. f_equal. f_equal; lia.
Qed.




Definition isLmCall (e : Event) : bool :=
  match e with
  | EvRemoveCustomers _ _ => true
  | EvCalcSentence _ _ _ _ => true
  | _ => false
  end.

Definition notLmCall (e : Event) : bool := negb (isLmCall e).




Lemma drawSample_notLmCall sentId p a : keeps (events_only notLmCall) (drawSample sentId p a).
Proof. keeps_events. Qed.






Lemma nthZ_insert {A : Type} (l : list A) (i : Z) (x y : A) :
  nthZ l i = Some x -> nthZ (<[ Z.to_nat i := y ]> l) i = Some y.
Proof.
  unfold nthZ. destruct (i <? 0); [discriminate|]. intros H.
  apply list_lookup_insert_eq. eapply lookup_lt_Some. exact H.
Qed.



(** ** Trimming *)

(** The words that survive a trim: those whose entry in the remap vector
    is not the sentinel, in their order. *)
Fixpoint keptWords (words : list (list CharId)) (remap : list WordId) : list (list CharId) :=
  match words, remap with
  | w :: ws, r :: rs => if r =? -1 then keptWords ws rs else w :: keptWords ws rs
  | _, _ => []
  end.

Lemma set_histories_same s : set_histories_ (histories_ s) s = s.
Proof. destruct s; reflexivity. Qed.

Lemma nthZ_of_nat {A : Type} (l : list A) (n : nat) : nthZ l (Z.of_nat n) = l !! n.
Proof.
  unfold nthZ. destruct (Z.of_nat n <? 0) eqn:E; [apply Z.ltb_lt in E; lia|].
  rewrite Nat2Z.id. reflexivity.
Qed.

(** The loop that rebuilds the lexicon: [pre] are the words already seen. *)
Lemma lexLoop_inv knownWords trimmedIds : forall suf pre nl s res s' t,
  knownWords = pre ++ suf ->
  runs (foldM (fun nl i =>
                 r <- defined (nthZ trimmedIds i) ;;
                 if negb (r =? -1)
                 then w <- defined (nthZ knownWords i) ;; ret (LexFst_addWord nl w)
                 else ret nl)
              (seqZ (Z.of_nat (List.length pre)) (Z.of_nat (List.length suf))) nl)
       s res s' t ->
  res = fold_left LexFst_addWord (keptWords suf (drop (List.length pre) trimmedIds)) nl /\
  (List.length suf <= List.length (drop (List.length pre) trimmedIds))%nat /\
  s' = s /\ t = [].
Proof.
  induction suf as [|w suf IH]; intros pre nl s res s' t Hwords Hrun.
  - simpl in Hrun. inv_run. simpl. repeat split; try reflexivity. lia.
  - change (List.length (w :: suf)) with (S (List.length suf)) in Hrun.
    rewrite seqZ_of_nat_S in Hrun. simpl in Hrun.
    apply runs_bind_inv in Hrun. destruct Hrun as (nl1 & s1 & t1 & t2 & Hstep & Hrest & ->).
    replace (Z.of_nat (List.length pre) + 1) with (Z.of_nat (List.length (pre ++ [w]))) in Hrest
      by (rewrite length_app; simpl; lia).
    destruct (IH (pre ++ [w]) nl1 s1 res s' t2
                 ltac:(rewrite <- app_assoc; exact Hwords) Hrest)
      as (-> & Hlen & -> & ->).
    apply runs_bind_inv in Hstep. destruct Hstep as (r & s2 & t3 & t4 & Hr & Hbody & ->).
    apply runs_defined_inv in Hr. destruct Hr as (Hr & -> & ->).
    rewrite nthZ_of_nat in Hr.
    rewrite (drop_S _ _ _ Hr).
    rewrite length_app in Hlen. simpl in Hlen. rewrite Nat.add_1_r in Hlen.
    rewrite length_app. simpl List.length. rewrite Nat.add_1_r.
    simpl keptWords. simpl List.length.
    destruct (r =? -1) eqn:E; simpl in Hbody.
    + inv_run. repeat split; try reflexivity. lia.
    + inv_run.
      match goal with
      | H : nthZ (pre ++ w :: suf) _ = Some _ |- _ =>
          rewrite nthZ_app_middle in H; injection H as <-
      end.
      simpl. repeat split; try reflexivity. lia.
Qed.

Lemma alter_middle {A : Type} (f : A -> A) (pre suf : list A) (x : A) :
  alter f (List.length pre) (pre ++ x :: suf) = pre ++ f x :: suf.
Proof.
  rewrite <- (Nat.add_0_r (List.length pre)). rewrite alter_app_r. reflexivity.
Qed.

Lemma insert_middle {A : Type} (pre suf : list A) (x y : A) :
  <[ List.length pre := y ]> (pre ++ x :: suf) = pre ++ y :: suf.
Proof.
  rewrite <- (Nat.add_0_r (List.length pre)). rewrite insert_app_r. reflexivity.
Qed.

(** The inner loop over one history: [rdone] is remapped, [rtodo] is not yet. *)
Lemma remapRow_inv trimmedIds hpre hsuf : forall rtodo rdone s u s' t,
  histories_ s = hpre ++ (rdone ++ rtodo) :: hsuf ->
  runs (forEach (seqZ (Z.of_nat (List.length rdone)) (Z.of_nat (List.length rtodo)))
          (fun j =>
             s <- get ;;
             h <- defined (nthZ (histories_ s) (Z.of_nat (List.length hpre))) ;;
             w <- defined (nthZ h j) ;;
             r <- defined (nthZ trimmedIds w) ;;
             modify (setHistory (Z.of_nat (List.length hpre)) j r)))
       s u s' t ->
  exists new,
    Forall2 (fun old r => nthZ trimmedIds old = Some r) rtodo new /\
    s' = set_histories_ (hpre ++ (rdone ++ new) :: hsuf) s /\ t = [].
Proof.
  induction rtodo as [|w rest IH]; intros rdone s u s' t Hhist Hrun.
  - simpl in Hrun. inv_run. exists []. split; [constructor|].
    split; [|reflexivity]. rewrite <- Hhist. symmetry. apply set_histories_same.
  - change (List.length (w :: rest)) with (S (List.length rest)) in Hrun.
    rewrite seqZ_of_nat_S in Hrun. simpl in Hrun.
    apply runs_bind_inv in Hrun. destruct Hrun as (x & s1 & t1 & t2 & Hstep & Hrest & ->).
    inv_run.
    match goal with
    | H : nthZ (histories_ s) _ = Some _ |- _ =>
        rewrite Hhist, nthZ_app_middle in H; injection H as <-
    end.
    match goal with
    | H : nthZ (rdone ++ w :: rest) _ = Some _ |- _ =>
        rewrite nthZ_app_middle in H; injection H as <-
    end.
    match goal with
    | H : nthZ trimmedIds w = Some ?r |- _ => rename H into Hr; set (new := r) in *
    end.
    replace (Z.of_nat (List.length rdone) + 1)
      with (Z.of_nat (List.length (rdone ++ [new]))) in Hrest
      by (rewrite length_app; simpl; lia).
    assert (Hnext : histories_ (setHistory (Z.of_nat (List.length hpre))
                                           (Z.of_nat (List.length rdone)) new s)
                    = hpre ++ ((rdone ++ [new]) ++ rest) :: hsuf).
    { unfold setHistory. cbn [histories_ set_histories_].
      rewrite Hhist, !Nat2Z.id, alter_middle, insert_middle, <- app_assoc. reflexivity. }
    destruct (IH (rdone ++ [new]) _ _ _ _ Hnext Hrest) as (news & Hall & -> & ->).
    exists (new :: news). split; [constructor; assumption|].
    split; [|reflexivity]. rewrite <- app_assoc. reflexivity.
Qed.

(** The outer loop over the histories. *)
Lemma remapLoop_inv trimmedIds : forall hsuf hpre s u s' t,
  histories_ s = hpre ++ hsuf ->
  runs (forEach (seqZ (Z.of_nat (List.length hpre)) (Z.of_nat (List.length hsuf)))
          (fun i =>
             hi <- (s <- get ;; defined (nthZ (histories_ s) i)) ;;
             forRange (sizeZ hi) (fun j =>
               s <- get ;;
               h <- defined (nthZ (histories_ s) i) ;;
               w <- defined (nthZ h j) ;;
               r <- defined (nthZ trimmedIds w) ;;
               modify (setHistory i j r))))
       s u s' t ->
  exists new,
    Forall2 (Forall2 (fun old r => nthZ trimmedIds old = Some r)) hsuf new /\
    s' = set_histories_ (hpre ++ new) s /\ t = [].
Proof.
  induction hsuf as [|row hsuf IH]; intros hpre s u s' t Hhist Hrun.
  - simpl in Hrun. inv_run. exists []. split; [constructor|].
    split; [|reflexivity]. rewrite <- Hhist. symmetry. apply set_histories_same.
  - change (List.length (row :: hsuf)) with (S (List.length hsuf)) in Hrun.
    rewrite seqZ_of_nat_S in Hrun. simpl in Hrun.
    apply runs_bind_inv in Hrun. destruct Hrun as (x & s1 & t1 & t2 & Hstep & Hrest & ->).
    inv_run.
    match goal with
    | H : nthZ (histories_ s) _ = Some _ |- _ =>
        rewrite Hhist, nthZ_app_middle in H; injection H as <-
    end.
    match goal with
    | H : runs (forRange _ _) _ _ _ _ |- _ => rename H into Hrow
    end.
    unfold forRange, sizeZ in Hrow.
    destruct (remapRow_inv trimmedIds hpre hsuf row [] s _ _ _ Hhist Hrow)
      as (newRow & HallRow & -> & ->).
    replace (Z.of_nat (List.length hpre) + 1)
      with (Z.of_nat (List.length (hpre ++ [newRow]))) in Hrest
      by (rewrite length_app; simpl; lia).
    assert (Hnext : histories_ (set_histories_ (hpre ++ ([] ++ newRow) :: hsuf) s)
                    = (hpre ++ [newRow]) ++ hsuf).
    { cbn [histories_ set_histories_]. rewrite <- app_assoc. reflexivity. }
    destruct (IH (hpre ++ [newRow]) _ _ _ _ Hnext Hrest) as (news & Hall & -> & ->).
    exists (newRow :: news). split; [constructor; assumption|].
    split; [|reflexivity]. rewrite <- app_assoc. reflexivity.
Qed.

(** What a trim does, as the specification words it. *)
Definition TrimEffect (s s' : LatticeLM) (t : list Event) : Prop :=
  exists known unk lex,
    knownLm_ s = Some known /\ unkLm_ s = Some unk /\ lexFst_ s = Some lex /\
    let remap := fst (PyLM_trim known true) in
    t = [EvTrim KnownLm true; EvTrim UnkLm false] /\
    knownLm_ s' = Some (snd (PyLM_trim known true)) /\
    unkLm_ s' = Some (snd (PyLM_trim unk false)) /\
    lexFst_ s' =
      Some (fold_left LexFst_addWord
              (keptWords (LexFst_getWords lex) remap)
              (LexFst_initializeArcs
                 (LexFst_setPermSymbols (LexFst_setSeparator LexFst_new (separator_ s))
                                        (LexFst_getPermSymbols lex)))) /\
    (List.length (LexFst_getWords lex) <= List.length remap)%nat /\
    Forall2 (Forall2 (fun old r => nthZ remap old = Some r)) (histories_ s) (histories_ s').

Lemma trimLm_inv lm b s r s' t :
  runs (trimLm lm b) s r s' t ->
  exists p, lmOf lm s = Some p /\ r = fst (PyLM_trim p b) /\
            s' = setLm lm (snd (PyLM_trim p b)) s /\ t = [EvTrim lm b].
Proof.
  unfold trimLm, theLm. intros Hrun. inv_run. eexists. split; [eassumption|]. auto.
Qed.

Lemma trimModels_inv s u s' t : runs trimModels s u s' t -> TrimEffect s s' t.
Proof.
  unfold trimModels, theLex. intros Hrun. inv_run.
  match goal with
  | H : runs (trimLm KnownLm _) _ _ _ _ |- _ =>
      destruct (trimLm_inv _ _ _ _ _ _ H) as (known & Hknown & -> & -> & ->)
  end.
  match goal with
  | H : runs (trimLm UnkLm _) _ _ _ _ |- _ =>
      destruct (trimLm_inv _ _ _ _ _ _ H) as (unk & Hunk & _ & -> & ->)
  end.
  match goal with
  | H : runs (foldM _ _ _) _ _ _ _ |- _ => rename H into Hlex
  end.
  match goal with
  | H : runs (forRange _ _) _ _ _ _ |- _ => rename H into Hremap
  end.
  match goal with
  | H : lexFst_ _ = Some ?l |- _ => rename H into Hl; set (lex := l) in *
  end.
  unfold sizeZ in Hlex.
  destruct (lexLoop_inv _ _ (LexFst_getWords lex) [] _ _ _ _ _ eq_refl Hlex)
    as (-> & Hlen & -> & ->).
  unfold forRange, sizeZ in Hremap.
  match type of Hremap with
  | runs _ ?s0 _ _ _ =>
      destruct (remapLoop_inv _ (histories_ s0) [] s0 _ _ _ eq_refl Hremap)
        as (new & Hall & -> & ->)
  end.
  simpl in *. rewrite drop_0 in Hlen.
  exists known, unk, lex. repeat split; try assumption.
Qed.

(** ** One epoch: trimming and snapshots *)

(** The parameters of a run. *)
Definition parameters (s : LatticeLM) :=
  (numBurnIn_ s, numAnnealSteps_ s, annealStepLength_ s, numSamples_ s,
   sampleRate_ s, trimRate_ s, pruneThreshold_ s, amScale_ s,
   prefix_ s, separator_ s, cacheInput_ s, inputType_ s, inputFiles_ s).

Lemma sweep_parameters iter : keeps (unchanged parameters) (sweep iter).
Proof. keeps_unchanged. Qed.

Lemma trimModels_parameters : keeps (unchanged parameters) trimModels.
Proof. keeps_unchanged. Qed.


Lemma printIfDue_histories iter : keeps (unchanged histories_) (printIfDue iter).
Proof. keeps_unchanged. Qed.

Lemma printIfDue_lexFst iter : keeps (unchanged lexFst_) (printIfDue iter).
Proof. keeps_unchanged. Qed.

Lemma trimIfDue_inv iter s u s' t :
  runs (trimIfDue iter) s u s' t ->
  trimRate_ s <> 0 /\
  (iter mod trimRate_ s = 0 -> TrimEffect s s' t) /\
  (iter mod trimRate_ s <> 0 -> s' = s /\ t = []).
Proof.
  unfold trimIfDue. intros Hrun. inv_run.
  destruct (trimRate_ s =? 0) eqn:E; [inv_run|].
  apply Z.eqb_neq in E. split; [exact E|].
  destruct (iter mod trimRate_ s =? 0) eqn:Em; simpl in *.
  - apply Z.eqb_eq in Em. split; [|contradiction].
    intros _. eapply trimModels_inv. eassumption.
  - apply Z.eqb_neq in Em. split; [contradiction|]. intros _. inv_run. auto.
Qed.

Lemma keptWords_In words : forall remap w,
  (List.length words <= List.length remap)%nat ->
  In w (keptWords words remap) <->
  exists i r, words !! i = Some w /\ remap !! i = Some r /\ r <> -1.
Proof.
  induction words as [|x words IH]; intros remap w Hlen.
  - simpl. split; [contradiction|]. intros (i & r & Hi & _). rewrite lookup_nil in Hi. discriminate.
  - destruct remap as [|r remap]; simpl in Hlen; [lia|].
    simpl. destruct (r =? -1) eqn:E.
    + apply Z.eqb_eq in E. rewrite IH by lia. split.
      * intros (i & r' & H1 & H2 & H3). exists (S i), r'. auto.
      * intros (i & r' & H1 & H2 & H3). destruct i as [|i]; simpl in *.
        -- injection H2 as <-. contradiction.
        -- exists i, r'. auto.
    + apply Z.eqb_neq in E. simpl. rewrite IH by lia. split.
      * intros [<- | (i & r' & H1 & H2 & H3)].
        -- exists 0%nat, r. auto.
        -- exists (S i), r'. auto.
      * intros (i & r' & H1 & H2 & H3). destruct i as [|i]; simpl in *.
        -- left. congruence.
        -- right. exists i, r'. auto.
Qed.

(** C3.  An epoch that returns is made of the sweep, the trim step and
    the snapshot step.  When its index is a multiple of [trimRate_] the
    trim step is [trimModels]: the word model is trimmed with a remap
    vector, the character model without; the lexicon is replaced by a new
    one with the trainer's separator and the old permanent symbols, to
    which the old words whose remap entry is not -1 are added in order;
    and every entry of every history is replaced by its remap entry.
    When the index is not a multiple the trim step does nothing.  The
    snapshot step leaves the histories and the lexicon as they are. *)
Theorem trim_epoch iter s s' t :
  runs (trainIteration iter) s tt s' t ->
  exists s1 t1 s2 t2 t3,
    runs (sweep iter) s tt s1 t1 /\
    runs (printIfDue iter) s2 tt s' t3 /\
    t = t1 ++ t2 ++ t3 /\
    trimRate_ s <> 0 /\
    (iter mod trimRate_ s = 0 -> TrimEffect s1 s2 t2) /\
    (iter mod trimRate_ s <> 0 -> s2 = s1 /\ t2 = []) /\
    histories_ s' = histories_ s2 /\ lexFst_ s' = lexFst_ s2 /\
    (forall words remap w,
       (List.length words <= List.length remap)%nat ->
       In w (keptWords words remap) <->
       exists i r, words !! i = Some w /\ remap !! i = Some r /\ r <> -1).
Proof.
  unfold trainIteration. intros Hrun.
  apply runs_bind_inv in Hrun. destruct Hrun as ([] & s1 & t1 & t23 & Hsweep & Hrest & ->).
  apply runs_bind_inv in Hrest. destruct Hrest as ([] & s2 & t2 & t3 & Htrim & Hprint & ->).
  exists s1, t1, s2, t2, t3.
  pose proof (keeps_run _ _ _ _ _ _ (sweep_parameters iter) Hsweep) as Hpar.
  unfold unchanged, parameters in Hpar.
  assert (Hrate : trimRate_ s1 = trimRate_ s) by congruence.
  destruct (trimIfDue_inv _ _ _ _ _ Htrim) as (Hnz & Hdue & Hnot).
  rewrite Hrate in Hnz, Hdue, Hnot.
  split; [exact Hsweep|]. split; [exact Hprint|]. split; [reflexivity|].
  split; [exact Hnz|]. split; [exact Hdue|]. split; [exact Hnot|].
  split; [exact (keeps_run _ _ _ _ _ _ (printIfDue_histories iter) Hprint)|].
  split; [exact (keeps_run _ _ _ _ _ _ (printIfDue_lexFst iter) Hprint)|].
  intros words remap w. apply keptWords_In.
Qed.








Lemma calculateWordBases_prefix : keeps (unchanged prefix_) calculateWordBases.
Proof. keeps_unchanged. Qed.











(** ** Configuration errors *)



Definition dieOnHelpTrace (err : option string) : list Event :=
  Cerr usagePieces ::
  match err with
  | Some e => [Cerr [Endl; Str "Error: "; Str e; Endl]]
  | None => []
  end.

Lemma dieOnHelp_run {A : Type} (err : option string) s :
  @dieOnHelp A err s = mkResult (Exit 1) s (dieOnHelpTrace err).
Proof. destruct err; reflexivity. Qed.








(** The names [loadInputFiles] reads: the lines of the file list when one
    is given, the arguments left after the options otherwise. *)
Definition candidateFiles (s : LatticeLM) (positional : list string) : list string :=
  match inputFileList_ s with
  | Some fl => linesOf fl
  | None => positional
  end.

Definition fileListReadable (s : LatticeLM) : bool :=
  match inputFileList_ s with
  | Some fl => readable fl
  | None => true
  end.

Lemma addInputFiles_ok msg files : forall s,
  forallb readable files = true ->
  forEach files (addInputFile msg) s =
    mkResult (Ok tt) (set_inputFiles_ (inputFiles_ s ++ files) s) [].
Proof.
  induction files as [|f rest IH]; intros s Hall; simpl.
  - rewrite app_nil_r. destruct s; reflexivity.
  - simpl in Hall. apply andb_prop in Hall. destruct Hall as [Hf Hrest].
    assert (Hstep : runs (addInputFile msg f) s tt (set_inputFiles_ (inputFiles_ s ++ [f]) s) []).
    { unfold runs, addInputFile. run_prim. rewrite Hf. reflexivity. }
    rewrite (bind_step _ _ _ _ _ _ Hstep). rewrite IH by exact Hrest.
    simpl. rewrite <- app_assoc. reflexivity.
Qed.


Lemma loadInputFiles_ok positional s :
  fileListReadable s = true ->
  forallb readable (candidateFiles s positional) = true ->
  loadInputFiles positional s =
    mkResult (Ok tt) (set_inputFiles_ (inputFiles_ s ++ candidateFiles s positional) s) [].
Proof.
  unfold loadInputFiles, fileListReadable, candidateFiles, readable, linesOf.
  intros Hlist Hall. run_prim.
  destruct (inputFileList_ s) as [fl|].
  - destruct (fileLines fl) as [names|]; [|discriminate].
    rewrite addInputFiles_ok by exact Hall. reflexivity.
  - rewrite addInputFiles_ok by exact Hall. reflexivity.
Qed.











Lemma finishLoad_ok_inv s u s' t :
  runs finishLoad s u s' t -> inputFiles_ s <> [] /\ prefix_ s <> EmptyString.
Proof.
  unfold finishLoad. intros Hrun. inv_run_cases.
  all: try match goal with
           | H : runs (dieOnHelp _) _ _ _ _ |- _ =>
               unfold runs in H; rewrite dieOnHelp_run in H; discriminate H
           end.
  all: (split; intros E;
     [ match goal with
       | H : (List.length (inputFiles_ _) =? 0)%nat = false |- _ =>
           simpl_fields_in H; rewrite E in H; discriminate H
       end
     | match goal with
       | H : (String.length (prefix_ _) =? 0)%nat = false |- _ =>
           simpl_fields_in H; rewrite E in H; discriminate H
       end ]).
Qed.


(** Arguments the option loop consumes without stopping: flags, and
    options with their value, where the value of [-input] is one of the
    two it accepts. *)
Inductive OptionsPrefix : list string -> Prop :=
| prefix_nil : OptionsPrefix []
| prefix_flag a rest assign :
    startsWithDash a = true -> optionKind a = Flag assign ->
    OptionsPrefix rest -> OptionsPrefix (a :: rest)
| prefix_value a v rest assign onNull :
    startsWithDash a = true -> optionKind a = TakesValue assign onNull ->
    (a = "-input"%string -> v = "fst"%string \/ v = "text"%string) ->
    OptionsPrefix rest -> OptionsPrefix (a :: v :: rest).

Lemma optionKind_input : optionKind "-input" = inputOption.
Proof. reflexivity. Qed.

Lemma value_assign_returns a v assign onNull s :
  optionKind a = TakesValue assign onNull ->
  (a = "-input"%string -> v = "fst"%string \/ v = "text"%string) ->
  exists s', assign v s = mkResult (Ok tt) s' [].
Proof.
  intros Hkind Hinput.
  destruct (String.eqb a "-input") eqn:Ein.
  - apply String.eqb_eq in Ein. subst a. rewrite optionKind_input in Hkind.
    unfold inputOption in Hkind. injection Hkind as <- _.
    destruct (Hinput eq_refl) as [-> | ->]; eexists; reflexivity.
  - revert Hkind. unfold optionKind, unsignedOption. rewrite Ein.
    repeat match goal with
           | |- context [if String.eqb a ?x then _ else _] => destruct (String.eqb a x)
           end;
      intros Hkind; try discriminate; injection Hkind as <- _; eexists; reflexivity.
Qed.

Lemma flag_assign_returns a assign s :
  optionKind a = Flag assign -> exists s', assign s = mkResult (Ok tt) s' [].
Proof.
  unfold optionKind, unsignedOption, inputOption.
  repeat match goal with
         | |- context [if String.eqb a ?x then _ else _] => destruct (String.eqb a x)
         end;
    intros Hkind; try discriminate; injection Hkind as <-; eexists; reflexivity.
Qed.

(** Past such a prefix the loop goes on with what follows. *)
Lemma parseOptions_prefix pre : OptionsPrefix pre ->
  forall tail s, exists s1,
    outcome (parseOptions (pre ++ tail) s) = outcome (parseOptions tail s1) /\
    trace (parseOptions (pre ++ tail) s) = trace (parseOptions tail s1).
Proof.
  induction 1 as [|a rest assign Hdash Hkind Hrest IH
                  |a v rest assign onNull Hdash Hkind Hv Hrest IH]; intros tail s.
  - exists s. auto.
  - destruct (flag_assign_returns a assign s Hkind) as [s' Hs'].
    destruct (IH tail s') as [s1 [Ho Ht]]. exists s1.
    simpl. rewrite Hdash, Hkind.
    rewrite (bind_step _ _ _ _ _ _ Hs'). simpl. auto.
  - destruct (value_assign_returns a v assign onNull s Hkind Hv) as [s' Hs'].
    destruct (IH tail s') as [s1 [Ho Ht]]. exists s1.
    simpl. rewrite Hdash, Hkind.
    rewrite (bind_step _ _ _ _ _ _ Hs'). simpl. auto.
Qed.


Lemma parseOptions_inputFiles : forall n argv,
  (List.length argv <= n)%nat -> keeps (unchanged inputFiles_) (parseOptions argv).
Proof.
  pose proof (unchanged_compositional inputFiles_) as HJ.
  induction n as [|n IH]; intros argv Hn.
  - destruct argv; [|simpl in Hn; lia]. simpl. apply (keeps_ret _ HJ).
  - destruct argv as [|a rest]; simpl; [apply (keeps_ret _ HJ)|].
    destruct (startsWithDash a); [|apply (keeps_ret _ HJ)].
    unfold optionKind, unsignedOption, inputOption.
    repeat match goal with
           | |- context [if String.eqb a ?x then _ else _] => destruct (String.eqb a x)
           end;
      try (destruct rest as [|v rest'];
           [ unfold dieOnHelp, exit; keeps_unchanged_base
           | apply (keeps_bind _ HJ);
             [ unfold dieOnHelp, exit; keeps_unchanged_base
             | intros _; apply IH; simpl in Hn; lia ] ]);
      try (apply (keeps_bind _ HJ);
           [ keeps_unchanged_base | intros _; apply IH; simpl in Hn; lia ]);
      try (unfold dieOnHelp, exit; keeps_unchanged_base).
Qed.







(** ** The acoustic scale

    [amScale_] is set by the constructor and read by [createInputFst]
    alone, which hands it to the weighted mapper when it reads a
    transducer from disk. *)





(** What [createInputFst] does, case by case. *)
Lemma createInputFst_run sentId s :
  createInputFst sentId s =
  match cachedFst s sentId with
  | Some f => mkResult (Ok f) s []
  | None =>
      match nthZ (inputFiles_ s) sentId with
      | None => mkResult Undefined s []
      | Some file =>
          match fstRead file with
          | None => mkResult Undefined s [EvFstRead file]
          | Some nextFst =>
              let f := ArcSortOLabel (WeightedMap (amScale_ s) nextFst) in
              mkResult (Ok f) (if cacheInput_ s then storeFst sentId f s else s)
                       [EvFstRead file; EvMap (amScale_ s) file]
          end
      end
  end.
Proof.
  unfold createInputFst. run_prim.
  destruct (cachedFst s sentId) as [f|]; [reflexivity|].
  destruct (nthZ (inputFiles_ s) sentId) as [file|]; [|reflexivity].
  unfold bind, defined, emit, ret, when, modify. cbn [outcome final trace].
  destruct (fstRead file) as [nextFst|]; [|reflexivity].
  cbn [outcome final trace]. destruct (cacheInput_ s); reflexivity.
Qed.















(** *** Text input *)




























(** ** Further properties of the trainer *)

(** *** [train] (lines 292-329) *)

(** X1.  However [train] ends, the parameters of the run are what they
    were when it started, and [mySamples_] is the list 0, 1, ..., n-1 that
    the first lines of [train] build from the number of input transducers:
    nothing in an epoch reorders or drops a sequence. *)
Theorem train_keeps_setup s :
  parameters (final (train s)) = parameters s /\
  mySamples_ (final (train s)) = seqZ 0 (sizeZ (inputFsts_ s)).
Proof.
  assert (Hpar : keeps (unchanged parameters) train) by keeps_unchanged.
  split; [exact (Hpar s)|].
  unfold train. run_prim.
  set (s1 := set_mySamples_ (seqZ 0 (sizeZ (inputFsts_ s))) s).
  assert (Hrest : keeps (unchanged mySamples_)
            (numSamples <- gets numSamples_ ;;
             forRange (numSamples + 1) trainIteration ;;
             when (numSamples =? Machine.modulus - 1) (stop Diverge)))
    by keeps_unchanged.
  exact (Hrest s1).
Qed.


Lemma bind_undefined {A B : Type} (m : M A) (k : A -> M B) s :
  outcome (m s) = Undefined -> trace (m s) = [] ->
  outcome (bind m k s) = Undefined /\ trace (bind m k s) = [].
Proof. unfold bind. intros -> Ht. split; [reflexivity | exact Ht]. Qed.

Lemma forEach_undefined {A : Type} (x : A) (rest : list A) (body : A -> M unit) s :
  outcome (body x s) = Undefined -> trace (body x s) = [] ->
  outcome (forEach (x :: rest) body s) = Undefined /\ trace (forEach (x :: rest) body s) = [].
Proof. apply bind_undefined. Qed.

Lemma annealLevel_zero_length iter N : annealLevel iter N 0 = None.
Proof. reflexivity. Qed.

Lemma bind_quiet_undefined {A B : Type} (m : M A) (k : A -> M B) s a s1 :
  runs m s a s1 [] ->
  outcome (k a s1) = Undefined /\ trace (k a s1) = [] ->
  outcome (bind m k s) = Undefined /\ trace (bind m k s) = [].
Proof. intros Hrun H. rewrite (bind_step _ _ _ _ _ _ Hrun). exact H. Qed.

Lemma sweep_zero_anneal_length iter s :
  annealStepLength_ s = 0 ->
  outcome (sweep iter s) = Undefined /\ trace (sweep iter s) = [].
Proof.
  intros Hzero. unfold sweep.
  do 4 (eapply bind_quiet_undefined; [reflexivity|]).
  match goal with
  | |- context [annealLevel _ _ (annealStepLength_ ?s3)] =>
      assert (H3 : annealStepLength_ s3 = 0) by exact Hzero; rewrite H3
  end.
  rewrite annealLevel_zero_length. apply bind_undefined; reflexivity.
Qed.

(** X3.  With [annealStepLength_] at 0 the first statement of an epoch
    that uses it divides by zero: [train] stops there, before it has
    sampled any sequence or written anything. *)
Theorem train_zero_anneal_length s :
  annealStepLength_ s = 0 -> 0 <= numSamples_ s ->
  outcome (train s) = Undefined /\ trace (train s) = [].
Proof.
  intros Hzero Hpos.
  set (s1 := set_mySamples_ (seqZ 0 (sizeZ (inputFsts_ s))) s).
  destruct (sweep_zero_anneal_length 0 s1 Hzero) as [Ho Ht].
  destruct (bind_undefined (sweep 0) (fun _ => trimIfDue 0 ;; printIfDue 0) s1 Ho Ht)
    as [Hio Hit].
  assert (Hloop : outcome (forRange (numSamples_ s + 1) trainIteration s1) = Undefined /\
                  trace (forRange (numSamples_ s + 1) trainIteration s1) = []).
  { unfold forRange. rewrite seqZ_cons by lia.
    apply forEach_undefined; [exact Hio | exact Hit]. }
  destruct Hloop as [Hlo Hlt].
  unfold train. run_prim. run_prim.
  apply bind_undefined; [exact Hlo | exact Hlt].
Qed.

(** *** The likelihood of the sampled path (lines 442-448) *)

(** The walk takes the first arc of the state it is in. *)
Definition firstArcInside (f : VectorFst) (st : FstState) : Prop :=
  exists a rest, st_arcs st = a :: rest /\ 0 <= nextstate a < NumStates f.

Lemma walkPath_cycle f : forall fuel sid s,
  Forall (firstArcInside f) (fst_states f) ->
  0 <= sid < NumStates f ->
  outcome (walkPath fuel f sid s) = Diverge.
Proof.
  induction fuel as [|k IH]; intros sid s Hall Hsid.
  all: destruct (lookup_lt_is_Some_2 (fst_states f) (Z.to_nat sid)) as [st Hst];
    [unfold NumStates, sizeZ in Hsid; lia|].
  all: assert (Hnth : nthZ (fst_states f) sid = Some st)
    by (unfold nthZ; destruct (Z.ltb_spec sid 0); [lia | exact Hst]).
  all: destruct (Forall_lookup_1 _ _ _ _ Hall Hst) as (a & rest & Harcs & Hnext).
  all: simpl; rewrite Hnth; unfold bind at 1; cbn [defined ret outcome final trace];
    rewrite Harcs.
  - reflexivity.
  - unfold bind at 1. cbn [modify outcome final trace].
    rewrite (IH (nextstate a) _ Hall Hnext). reflexivity.
Qed.

(** X4.  The walk that adds up the likelihood of the sampled path ends
    only at a state without arcs: on a transducer whose every state has a
    first arc leading to one of its states, and whose start state is one of
    them, it goes round for ever. *)
Theorem addLikelihood_cycle f s :
  Forall (firstArcInside f) (fst_states f) ->
  0 <= fst_start f < NumStates f ->
  outcome (addLikelihood f s) = Diverge.
Proof. intros Hall Hstart. unfold addLikelihood. apply walkPath_cycle; assumption. Qed.

(** *** [iterateSamples] (lines 390-400) *)














(** *** [calculateWordBases] (lines 495-501) *)

(** The loop of [calculateWordBases]: the words still to score are [suf],
    those scored are [pre], and their base probabilities are [done]. *)
Lemma wordBasesLoop_inv knownWords : forall suf pre done s unk res s' t,
  knownWords = pre ++ suf ->
  List.length done = List.length pre ->
  unkLm_ s = Some unk ->
  runs (foldM (fun bases j =>
                 cs <- defined (nthZ knownWords j) ;;
                 s <- get ;;
                 p <- calcSentence UnkLm cs (unkBases_ s) false ;;
                 ret (<[ Z.to_nat j := exp p ]> bases))
              (seqZ (Z.of_nat (List.length pre)) (Z.of_nat (List.length suf)))
              (done ++ replicate (List.length suf) 0%Q))
       s res s' t ->
  res = done ++ map exp (scoreSpellings unk (prng_ s) (unkBases_ s) suf) /\
  t = map (fun cs => EvCalcSentence UnkLm cs (unkBases_ s) false) suf /\
  sameButUnk s s'.
Proof.
  induction suf as [|cs suf IH]; intros pre done s unk res s' t Hwords Hlen Hunk Hrun.
  - simpl in Hrun. inv_run. simpl. rewrite app_nil_r. repeat split.
  - change (List.length (cs :: suf)) with (S (List.length suf)) in Hrun.
    rewrite seqZ_of_nat_S in Hrun. simpl in Hrun. inv_run.
    match goal with
    | H : runs (calcSentence _ _ _ _) _ _ _ _ |- _ =>
        destruct (calcSentence_inv _ _ _ _ _ _ _ _ H) as [m [Hm [-> [-> ->]]]]
    end.
    simpl in Hm. rewrite Hunk in Hm. injection Hm as <-.
    match goal with
    | H : nthZ (pre ++ cs :: suf) _ = Some _ |- _ =>
        rewrite nthZ_app_middle in H; injection H as <-
    end.
    match goal with
    | H : runs (foldM _ _ _) _ _ _ _ |- _ => rename H into Hrest
    end.
    set (out := PyLM_calcSentence unk cs (unkBases_ s) false (prng_ s)) in *.
    assert (Hins : <[ Z.to_nat (Z.of_nat (List.length pre)) := exp (fst (fst out)) ]>
                     (done ++ 0%Q :: replicate (List.length suf) 0%Q)
                   = (done ++ [exp (fst (fst out))]) ++ replicate (List.length suf) 0%Q).
    { rewrite Nat2Z.id, <- Hlen, <- (Nat.add_0_r (List.length done)), insert_app_r,
        <- app_assoc. reflexivity. }
    rewrite Hins in Hrest.
    replace (Z.of_nat (List.length pre) + 1) with (Z.of_nat (List.length (pre ++ [cs]))) in Hrest
      by (rewrite length_app; simpl; lia).
    destruct (IH (pre ++ [cs]) (done ++ [exp (fst (fst out))])
                 (setLm UnkLm (snd (fst out)) (set_prng_ (snd out) s)) (snd (fst out)) _ _ _
                 ltac:(rewrite <- app_assoc; reflexivity)
                 ltac:(rewrite !length_app; simpl; lia)
                 eq_refl Hrest)
      as [-> [-> Hsame]].
    simpl.
    split; [rewrite <- app_assoc; reflexivity|].
    split; [reflexivity|].
    destruct Hsame as (Hs1 & Hs2 & Hs3 & Hs4). repeat split; assumption.
Qed.

Lemma scoreSpellings_length spellings : forall unk g bases,
  List.length (scoreSpellings unk g bases spellings) = List.length spellings.
Proof.
  induction spellings as [|cs rest IH]; intros unk g bases; simpl; [reflexivity|].
  rewrite IH. reflexivity.
Qed.

(** X6.  [calculateWordBases] returns one base probability for each word
    of the lexicon, in the order of the lexicon: the exponential of what
    the character model gives for the spelling of the word, asked without
    seating, one word after the other.  It makes these calls and no other,
    and leaves the word model, the lexicon and the histories as they are. *)
Theorem calculateWordBases_scores s bases s' t :
  runs calculateWordBases s bases s' t ->
  exists lex,
    lexFst_ s = Some lex /\
    List.length bases = List.length (LexFst_getWords lex) /\
    t = map (fun cs => EvCalcSentence UnkLm cs (unkBases_ s) false) (LexFst_getWords lex) /\
    (forall unk, unkLm_ s = Some unk ->
       bases = map exp (scoreSpellings unk (prng_ s) (unkBases_ s) (LexFst_getWords lex))) /\
    sameButUnk s s'.
Proof.
  unfold calculateWordBases, theLex. intros Hrun.
  apply runs_bind_inv in Hrun. destruct Hrun as (lex & s1 & t1 & t2 & Hlex & Hloop & ->).
  inv_run. exists lex. split; [assumption|].
  cbv zeta in Hloop.
  destruct (LexFst_getWords lex) as [|cs rest] eqn:Hwords.
  - simpl in Hloop. inv_run. repeat split.
  - destruct (unkLm_ s) as [unk|] eqn:Hunk.
    + destruct (wordBasesLoop_inv (cs :: rest) (cs :: rest) [] [] s unk bases s' t2
                  eq_refl eq_refl Hunk Hloop) as (Hres & Ht & Hsame).
      split; [rewrite Hres, app_nil_l, length_map; apply scoreSpellings_length|].
      split; [exact Ht|]. split; [|exact Hsame].
      intros unk' Hu. injection Hu as <-. exact Hres.
    + exfalso. unfold sizeZ in Hloop.
      change (List.length (cs :: rest)) with (S (List.length rest)) in Hloop.
      rewrite seqZ_of_nat_S in Hloop. simpl in Hloop. inv_run.
      match goal with
      | H : runs (calcSentence _ _ _ _) _ _ _ _ |- _ =>
          destruct (calcSentence_inv _ _ _ _ _ _ _ _ H) as [m [Hm _]]
      end.
      simpl in Hm. congruence.
Qed.

(** *** The command line (lines 194-255) *)

(** X7.  The options end at the first argument that does not start with a
    dash: after a run of well-formed options the parser returns that
    argument and everything behind it, whether it looks like an option or
    not, as the names of the input files, and prints nothing. *)
Theorem parseOptions_stops_at_file pre a rest s :
  OptionsPrefix pre -> startsWithDash a = false ->
  outcome (parseOptions (pre ++ a :: rest) s) = Ok (a :: rest) /\
  trace (parseOptions (pre ++ a :: rest) s) = [].
Proof.
  intros Hpre Hdash.
  destruct (parseOptions_prefix pre Hpre (a :: rest) s) as [s1 [Ho Ht]].
  rewrite Ho, Ht. simpl. rewrite Hdash. split; reflexivity.
Qed.

(** X8.  Once a file list is set the arguments behind the options are not
    looked at: the input files are the lines of the list, appended to
    [inputFiles_] in order when each of them can be opened. *)
Theorem fileList_overrides positional s fl :
  inputFileList_ s = Some fl ->
  loadInputFiles positional s = loadInputFiles [] s /\
  (forall names,
     fileLines fl = Some names -> forallb readable names = true ->
     loadInputFiles positional s
     = mkResult (Ok tt) (set_inputFiles_ (inputFiles_ s ++ names) s) []).
Proof.
  intros Hlist. split.
  - unfold loadInputFiles. do 2 run_prim. rewrite Hlist. reflexivity.
  - intros names Hnames Hall.
    rewrite (loadInputFiles_ok positional s).
    + unfold candidateFiles, linesOf. rewrite Hlist, Hnames. reflexivity.
    + unfold fileListReadable, readable. rewrite Hlist, Hnames. reflexivity.
    + unfold candidateFiles, linesOf. rewrite Hlist, Hnames. exact Hall.
Qed.

(** *** [createInputFst] without the cache (lines 476-492) *)

(** X9.  With the cache off [createInputFst] never looks at [inputFsts_]
    and never stores into it: a call that returns has read the file of the
    sentence, scaled its weights by [amScale_] and sorted its arcs, and has
    left the trainer as it was, so that the next call does the same again. *)
Theorem createInputFst_uncached sentId s f s' t :
  cacheInput_ s = false ->
  runs (createInputFst sentId) s f s' t ->
  s' = s /\
  exists file nextFst,
    nthZ (inputFiles_ s) sentId = Some file /\
    fstRead file = Some nextFst /\
    f = ArcSortOLabel (WeightedMap (amScale_ s) nextFst) /\
    t = [EvFstRead file; EvMap (amScale_ s) file].
Proof.
  intros Hoff Hrun. unfold runs in Hrun. rewrite createInputFst_run in Hrun.
  unfold cachedFst in Hrun. rewrite Hoff in Hrun. cbn [andb] in Hrun.
  destruct (nthZ (inputFiles_ s) sentId) as [file|]; [|discriminate Hrun].
  destruct (fstRead file) as [nextFst|] eqn:Hread; [|discriminate Hrun].
  cbv zeta in Hrun. injection Hrun as <- <- <-.
  split; [reflexivity|]. exists file, nextFst. auto.
Qed.

(** *** The ids of the characters (lines 146-154 and 166-187) *)

(** The ids in the hash are the numbers below its size, each once. *)
Definition DenseIds (ids : Ids) : Prop :=
  (forall k v, idHash ids !! k = Some v -> 0 <= v < Z.of_nat (size (idHash ids))) /\
  (forall k1 k2 v, idHash ids !! k1 = Some v -> idHash ids !! k2 = Some v -> k1 = k2).

Lemma findId_size str ids :
  (size (idHash ids) <= size (idHash (snd (findId str ids))))%nat.
Proof.
  unfold findId. destruct (idHash ids !! str) eqn:E; simpl; [lia|].
  cbn [idHash]. rewrite map_size_insert_None by exact E. lia.
Qed.

Lemma findId_dense str ids :
  DenseIds ids ->
  Z.of_nat (size (idHash (snd (findId str ids)))) <= Machine.half_modulus ->
  DenseIds (snd (findId str ids)).
Proof.
  intros [Hrange Hinj]. unfold findId, DenseIds.
  destruct (idHash ids !! str) eqn:E; cbn [snd idHash]; [intros _; split; assumption|].
  rewrite !map_size_insert_None by exact E. intros Hfit.
  rewrite to_int_small by lia.
  split.
  - intros k v Hk. apply lookup_insert_Some in Hk.
    destruct Hk as [[_ <-] | [_ Hk]]; [lia|].
    specialize (Hrange k v Hk). lia.
  - intros k1 k2 v H1 H2.
    apply lookup_insert_Some in H1. apply lookup_insert_Some in H2.
    destruct H1 as [[<- <-] | [Hne1 H1]], H2 as [[<- E2] | [Hne2 H2]].
    + reflexivity.
    + specialize (Hrange k2 _ H2). lia.
    + specialize (Hrange k1 _ H1). lia.
    + exact (Hinj k1 k2 v H1 H2).
Qed.

Lemma idsAfter_size toks : forall ids,
  (size (idHash ids) <= size (idHash (idsAfter toks ids)))%nat.
Proof.
  induction toks as [|str rest IH]; intros ids; simpl; [lia|].
  pose proof (findId_size str ids). specialize (IH (snd (findId str ids))). lia.
Qed.

Lemma idsAfter_dense toks : forall ids,
  DenseIds ids ->
  Z.of_nat (size (idHash (idsAfter toks ids))) <= Machine.half_modulus ->
  DenseIds (idsAfter toks ids).
Proof.
  induction toks as [|str rest IH]; intros ids Hd Hfit; simpl in *; [exact Hd|].
  apply IH; [|exact Hfit].
  apply findId_dense; [exact Hd|].
  pose proof (idsAfter_size rest (snd (findId str ids))). lia.
Qed.

Lemma idsAfterLines_size lines : forall ids,
  (size (idHash ids) <= size (idHash (idsAfterLines lines ids)))%nat.
Proof.
  induction lines as [|l rest IH]; intros ids; simpl; [lia|].
  pose proof (idsAfter_size (tokens l) ids). specialize (IH (idsAfter (tokens l) ids)). lia.
Qed.

Lemma idsAfterLines_dense lines : forall ids,
  DenseIds ids ->
  Z.of_nat (size (idHash (idsAfterLines lines ids))) <= Machine.half_modulus ->
  DenseIds (idsAfterLines lines ids).
Proof.
  induction lines as [|l rest IH]; intros ids Hd Hfit; simpl in *; [exact Hd|].
  apply IH; [|exact Hfit].
  apply idsAfter_dense; [exact Hd|].
  pose proof (idsAfterLines_size rest (idsAfter (tokens l) ids)). lia.
Qed.

Lemma initialIds_dense : DenseIds initialIds.
Proof.
  assert (H0 : DenseIds (mkIds ∅ [])).
  { split; intros *; cbn [idHash]; rewrite lookup_empty; discriminate. }
  assert (H1 : DenseIds (snd (findId "<eps>" (mkIds ∅ []))))
    by (apply findId_dense; [exact H0 | vm_compute; discriminate]).
  assert (H2 : DenseIds (snd (findId "<phi>" (snd (findId "<eps>" (mkIds ∅ []))))))
    by (apply findId_dense; [exact H1 | vm_compute; discriminate]).
  exact H2.
Qed.

Lemma initialIds_eps : idHash initialIds !! "<eps>"%string = Some 0.
Proof.
  unfold initialIds. cbv zeta. cbn [idHash].
  vm_compute. reflexivity.
Qed.

(** X10.  As long as the table holds no more than 2^31 symbols, the ids
    [loadText] gives the tokens tell them apart: two tokens of the input
    have the same id exactly when they are the same string, and a token
    has the id 0 of epsilon exactly when it is spelled [<eps>]. *)
Theorem charIds_distinguish lines l1 l2 tok1 tok2 :
  Z.of_nat (size (idHash (idsAfterLines lines initialIds))) <= Machine.half_modulus ->
  In l1 lines -> In tok1 (tokens l1) ->
  In l2 lines -> In tok2 (tokens l2) ->
  (charId (idsAfterLines lines initialIds) tok1 = charId (idsAfterLines lines initialIds) tok2
   <-> tok1 = tok2) /\
  (charId (idsAfterLines lines initialIds) tok1 = 0 <-> tok1 = "<eps>"%string).
Proof.
  intros Hfit Hl1 Ht1 Hl2 Ht2.
  destruct (idsAfterLines_dense lines initialIds initialIds_dense Hfit) as [_ Hinj].
  destruct (tokens_known lines initialIds l1 tok1 Hl1 Ht1) as [v1 Hv1].
  destruct (tokens_known lines initialIds l2 tok2 Hl2 Ht2) as [v2 Hv2].
  destruct (idsAfterLines_extend lines initialIds) as [Hkeep _].
  pose proof (Hkeep _ _ initialIds_eps) as Heps.
  unfold charId. rewrite Hv1, Hv2. simpl. split; split.
  - intros <-. exact (Hinj _ _ _ Hv1 Hv2).
  - intros <-. congruence.
  - intros ->. exact (Hinj _ _ _ Hv1 Heps).
  - intros ->. congruence.
Qed.

(** *** What [loadProperties] leaves when it returns (lines 256-288) *)

Lemma length_resize {A : Type} (n : nat) (x : A) (v : list A) :
  List.length (resize n x v) = n.
Proof. unfold resize. rewrite length_app, length_take, length_replicate. lia. Qed.

Lemma loadInput_histories s u s' t :
  runs loadInput s u s' t ->
  lexFst_ s' <> None /\ List.length (histories_ s') = List.length (inputFsts_ s').
Proof.
  unfold loadInput. intros Hrun. inv_run_cases.
  all: try match goal with
           | H : runs (dieOnHelp _) _ _ _ _ |- _ =>
               unfold runs in H; rewrite dieOnHelp_run in H; discriminate H
           end.
  all: simpl_fields; rewrite length_resize; split; [discriminate | reflexivity].
Qed.

Lemma finishLoad_inv s u s' t :
  runs finishLoad s u s' t ->
  knownLm_ s' = Some (PyLM_new (knownN_ s)) /\
  unkLm_ s' = Some (PyLM_new (unkN_ s)) /\
  List.length (unkBases_ s') = MAX_WORD_LEN /\
  (histories_ s', inputFsts_ s', lexFst_ s', knownN_ s', unkN_ s')
  = (histories_ s, inputFsts_ s, lexFst_ s, knownN_ s, unkN_ s).
Proof.
  unfold finishLoad. intros Hrun. inv_run_cases.
  all: try match goal with
           | H : runs (dieOnHelp _) _ _ _ _ |- _ =>
               unfold runs in H; rewrite dieOnHelp_run in H; discriminate H
           end.
  all: simpl_fields; rewrite length_resize; repeat split.
Qed.

(** X11.  When [loadProperties] returns, the trainer is ready: there is a
    lexicon, a fresh word model and a fresh character model of the orders
    asked for, at least one input file and a prefix for the output, one
    history for each input transducer, and [MAX_WORD_LEN] base
    probabilities for the characters. *)
Theorem loadProperties_ready argv s s' t :
  runs (loadProperties argv) s tt s' t ->
  lexFst_ s' <> None /\
  knownLm_ s' = Some (PyLM_new (knownN_ s')) /\
  unkLm_ s' = Some (PyLM_new (unkN_ s')) /\
  inputFiles_ s' <> [] /\ prefix_ s' <> EmptyString /\
  List.length (histories_ s') = List.length (inputFsts_ s') /\
  List.length (unkBases_ s') = MAX_WORD_LEN.
Proof.
  unfold loadProperties. intros Hrun.
  apply runs_bind_inv in Hrun. destruct Hrun as ([] & sa & ta & tb & Hread & Hrest & ->).
  apply runs_bind_inv in Hrest. destruct Hrest as ([] & sb & tc & td & Hload & Hfin & ->).
  destruct (loadInput_histories _ _ _ _ Hload) as [Hlex Hhist].
  destruct (finishLoad_ok_inv _ _ _ _ Hfin) as [Hfiles Hprefix].
  pose proof (keeps_run _ _ _ _ _ _
                (ltac:(unfold finishLoad, dieOnHelp, exit; keeps_unchanged_base)
                 : keeps (unchanged (fun s => (inputFiles_ s, prefix_ s))) finishLoad) Hfin)
    as Hsame.
  unfold unchanged in Hsame. cbv beta in Hsame. injection Hsame as Hf Hp.
  destruct (finishLoad_inv _ _ _ _ Hfin) as (Hk & Hu & Hb & Heq).
  injection Heq as Hh Hi Hl Hkn Hun.
  rewrite Hkn, Hun, Hh, Hi, Hl, Hf, Hp. auto 10.
Qed.

End Trainer.

(** ** The annealing schedule *)













(** ** A small instance

    Collaborators simple enough to run: language models that score
    everything 0 and remember nothing, a lexicon that is a list of
    spellings, lazy transducers that are expanded already, a pruner that
    leaves nothing, a sampler that returns the transducer it is given, and
    a file system of one corpus and one lattice. *)

Arguments runs {PyLM Rng LexFst A} m s a s' t.
Arguments outcome {PyLM Rng LexFst A} r.
Arguments final {PyLM Rng LexFst A} r.
Arguments trace {PyLM Rng LexFst A} r.
Arguments mkResult {PyLM Rng LexFst A} outcome final trace.
Arguments histories_ {PyLM Rng LexFst} l.
Arguments inputFsts_ {PyLM Rng LexFst} l.
Arguments inputFiles_ {PyLM Rng LexFst} l.
Arguments inputType_ {PyLM Rng LexFst} l.
Arguments pruneThreshold_ {PyLM Rng LexFst} l.
Arguments numBurnIn_ {PyLM Rng LexFst} l.
Arguments sampleRate_ {PyLM Rng LexFst} l.
Arguments trimRate_ {PyLM Rng LexFst} l.
Arguments cacheInput_ {PyLM Rng LexFst} l.
Arguments amScale_ {PyLM Rng LexFst} l.
Arguments prefix_ {PyLM Rng LexFst} l.
Arguments lexFst_ {PyLM Rng LexFst} l.
Arguments set_mySamples_ {PyLM Rng LexFst} v s.
Arguments set_inputFiles_ {PyLM Rng LexFst} v s.
Arguments numSamples_ {PyLM Rng LexFst} l.
Arguments set_numSamples_ {PyLM Rng LexFst} v s.
Arguments set_annealStepLength_ {PyLM Rng LexFst} v s.
Arguments set_inputFileList_ {PyLM Rng LexFst} v s.
Arguments mySamples_ {PyLM Rng LexFst} l.
Arguments unkBases_ {PyLM Rng LexFst} l.

Module Toy.

Definition PyLM : Type := Z.
Definition Rng : Type := Z.
Definition PyLM_new (n : Z) : PyLM := n.
Definition PyLM_calcSentence (p : PyLM) (ws : list Z) (bases : list Q) (doAdd : bool)
    (g : Rng) : Q * PyLM * Rng := (0%Q, p, g).
Definition PyLM_removeCustomers (p : PyLM) (ws : list Z) (g : Rng) : PyLM * Rng := (p, g).
Definition PyLM_getBasePositions (p : PyLM) : list Z := [0].
Definition PyLM_sampleParameters (p : PyLM) (g : Rng) : PyLM * Rng := (p, g).
Definition PyLM_trim (p : PyLM) (returnRemap : bool) : list Z * PyLM :=
  (if returnRemap then [0; -1] else [], p).
Definition PyLM_getVocabSize (p : PyLM) : Z := 1.
Definition PyLM_size (p : PyLM) : Z := 1.
Definition PyLM_getN (p : PyLM) : Z := p.
Definition PyLM_getStrength (p : PyLM) (i : Z) : Q := 1.
Definition PyLM_getDiscount (p : PyLM) (i : Z) : Q := 0.

Record LexFst : Type := mkLex {
  lexSeparator : string;
  lexPerm : list string;
  lexWords : list (list Z)
}.

Definition LexFst_new : LexFst := mkLex EmptyString [] [].
Definition LexFst_setSeparator (l : LexFst) (sep : string) : LexFst :=
  mkLex sep (lexPerm l) (lexWords l).
Definition LexFst_load (l : LexFst) (file : string) : LexFst := l.
Definition LexFst_setPermSymbols (l : LexFst) (perm : list string) : LexFst :=
  mkLex (lexSeparator l) perm (lexWords l).
Definition LexFst_initializeArcs (l : LexFst) : LexFst := l.
Definition LexFst_getNumChars (l : LexFst) : Z := Z.of_nat (List.length (lexPerm l)) - 3.
Definition LexFst_getWords (l : LexFst) : list (list Z) := lexWords l.
Definition LexFst_getPermSymbols (l : LexFst) : list string := lexPerm l.
Definition LexFst_getSymbols (l : LexFst) : list string :=
  lexPerm l ++ map (fun _ => "wab"%string) (lexWords l).
Definition LexFst_addWord (l : LexFst) (w : list Z) : LexFst :=
  mkLex (lexSeparator l) (lexPerm l) (lexWords l ++ [w]).
Definition LexFst_parseSample (l : LexFst) (f : VectorFst) : list Z * LexFst :=
  ([0],
   match lexWords l with
   | [] => mkLex (lexSeparator l) (lexPerm l) [[4; 5]; [5; 6]]
   | _ :: _ => l
   end).

Definition LazyFst : Type := VectorFst.
Definition ComposeLex (f : VectorFst) (l : LexFst) : LazyFst := f.
Definition PylmFst (known unk : PyLM) (u : Z) : LazyFst := emptyFst.
Definition ComposePhi (a b : LazyFst) : LazyFst := a.
Definition expand (f : LazyFst) : VectorFst := f.
Definition Prune (f : LazyFst) (threshold : Q) : VectorFst := emptyFst.
Definition SampGen (f : VectorFst) (n : Z) (anneal : Q) (g : Rng) : VectorFst * Rng := (f, g).
Definition WeightedMap (scale : Q) (f : VectorFst) : VectorFst := f.
Definition ArcSortOLabel (f : VectorFst) : VectorFst := f.

Definition fileLines (name : string) : option (list string) :=
  if String.eqb name "corpus.txt" then Some ["a b"; "b c"]%string
  else if String.eqb name "files.txt" then Some ["corpus.txt"]%string
  else if String.eqb name "lat.fst" then Some []
  else None.
Definition fstRead (name : string) : option VectorFst :=
  if String.eqb name "lat.fst"
  then Some (mkFst 0 [mkFstState None [mkArc 4 4 1 1]; mkFstState (Some 0%Q) []])
  else None.
Definition atoi (str : string) : Z :=
  if String.eqb str "1" then 1 else if String.eqb str "2" then 2 else 0.
Definition atof (str : string) : Q :=
  if String.eqb str "1" then 1 else if String.eqb str "-1" then -1 else 0.
Definition exp (x : Q) : Q := 1.

Definition State : Type := LatticeLM PyLM Rng LexFst.

Abbreviation loadProperties := (loadProperties PyLM Rng PyLM_new LexFst LexFst_new
  LexFst_setSeparator LexFst_load LexFst_setPermSymbols LexFst_initializeArcs
  LexFst_getNumChars fileLines atoi atof).
Abbreviation loadText := (loadText PyLM Rng LexFst fileLines).
Abbreviation singleSample := (singleSample PyLM Rng PyLM_calcSentence PyLM_removeCustomers
  PyLM_getBasePositions LexFst LexFst_getWords LexFst_parseSample LazyFst ComposeLex
  PylmFst ComposePhi expand Prune SampGen WeightedMap ArcSortOLabel fstRead exp).
Abbreviation removeOld := (removeOld PyLM Rng PyLM_removeCustomers PyLM_getBasePositions
  LexFst LexFst_getWords).
Abbreviation buildFsts := (buildFsts PyLM Rng LexFst LazyFst ComposeLex PylmFst ComposePhi
  WeightedMap ArcSortOLabel fstRead).
Abbreviation pruneFst := (pruneFst PyLM Rng LexFst LazyFst expand Prune).
Abbreviation trainIteration := (trainIteration PyLM Rng PyLM_calcSentence PyLM_removeCustomers
  PyLM_getBasePositions PyLM_sampleParameters PyLM_trim PyLM_getVocabSize PyLM_size
  PyLM_getN PyLM_getStrength PyLM_getDiscount LexFst LexFst_new LexFst_setSeparator
  LexFst_setPermSymbols LexFst_initializeArcs LexFst_getWords LexFst_getPermSymbols
  LexFst_getSymbols LexFst_addWord LexFst_parseSample LazyFst ComposeLex PylmFst
  ComposePhi expand Prune SampGen WeightedMap ArcSortOLabel fstRead exp).
Abbreviation train := (train PyLM Rng PyLM_calcSentence PyLM_removeCustomers
  PyLM_getBasePositions PyLM_sampleParameters PyLM_trim PyLM_getVocabSize PyLM_size
  PyLM_getN PyLM_getStrength PyLM_getDiscount LexFst LexFst_new LexFst_setSeparator
  LexFst_setPermSymbols LexFst_initializeArcs LexFst_getWords LexFst_getPermSymbols
  LexFst_getSymbols LexFst_addWord LexFst_parseSample LazyFst ComposeLex PylmFst
  ComposePhi expand Prune SampGen WeightedMap ArcSortOLabel fstRead exp).
Abbreviation createInputFst := (createInputFst PyLM Rng LexFst WeightedMap ArcSortOLabel
  fstRead).
Abbreviation parseOptions := (parseOptions PyLM Rng LexFst atoi atof).
Abbreviation readArguments := (readArguments PyLM Rng LexFst fileLines atoi atof).
Abbreviation writeSamples := (writeSamples PyLM Rng LexFst).
Abbreviation iterateSamples := (iterateSamples PyLM Rng PyLM_calcSentence PyLM_removeCustomers
  PyLM_getBasePositions LexFst LexFst_getWords LexFst_parseSample LazyFst ComposeLex
  PylmFst ComposePhi expand Prune SampGen WeightedMap ArcSortOLabel fstRead exp).
Abbreviation calculateWordBases := (calculateWordBases PyLM Rng PyLM_calcSentence LexFst
  LexFst_getWords exp).
Abbreviation addLikelihood := (addLikelihood PyLM Rng LexFst).
Abbreviation loadInputFiles := (loadInputFiles PyLM Rng LexFst fileLines).

(** The trainer after the options of a run on the corpus, after one
    resample of its first sentence, and as [train] starts. *)
Definition textArgs : list string :=
  ["-burnin"; "0"; "-prefix"; "out/"; "-input"; "text"; "corpus.txt"]%string.

Definition initial : State := LatticeLM_new PyLM Rng LexFst 0.

Definition loaded : State := final (loadProperties textArgs initial).

Definition sampled : State := final (singleSample 0 1 loaded).

Definition starting : State := set_mySamples_ [0; 1] loaded.

(** The trainer after the same options with a pruning threshold. *)
Definition pruned (threshold : string) : State :=
  final (loadProperties ("-prune"%string :: threshold :: textArgs) initial).

(** What a computation returns, or [d] when it does not return. *)
Definition value {A : Type} (d : A) (r : Result PyLM Rng LexFst A) : A :=
  match outcome r with
  | Ok a => a
  | _ => d
  end.

Definition noFsts : Composed LazyFst := mkComposed LazyFst emptyFst emptyFst emptyFst emptyFst.

End Toy.

(** *** The theorems at the instance *)


(** Epoch 0 on the corpus: the trim rate is 1, so the epoch trims. *)
Lemma trim_epoch_witness :
  exists t1 t2 t3,
    trace (Toy.trainIteration 0 Toy.starting) = t1 ++ t2 ++ t3 /\
    trimRate_ Toy.starting <> 0.
Proof.
  assert (Hrun : runs (Toy.trainIteration 0) Toy.starting tt
                      (final (Toy.trainIteration 0 Toy.starting))
                      (trace (Toy.trainIteration 0 Toy.starting)))
    by (vm_compute; reflexivity).
  destruct (trim_epoch Toy.PyLM Toy.Rng Toy.PyLM_calcSentence Toy.PyLM_removeCustomers
             Toy.PyLM_getBasePositions Toy.PyLM_sampleParameters Toy.PyLM_trim
             Toy.PyLM_getVocabSize Toy.PyLM_size Toy.PyLM_getN Toy.PyLM_getStrength
             Toy.PyLM_getDiscount Toy.LexFst Toy.LexFst_new Toy.LexFst_setSeparator
             Toy.LexFst_setPermSymbols Toy.LexFst_initializeArcs Toy.LexFst_getWords
             Toy.LexFst_getPermSymbols Toy.LexFst_getSymbols Toy.LexFst_addWord
             Toy.LexFst_parseSample Toy.LazyFst Toy.ComposeLex Toy.PylmFst
             Toy.ComposePhi Toy.expand Toy.Prune Toy.SampGen Toy.WeightedMap
             Toy.ArcSortOLabel Toy.fstRead Toy.exp 0 _ _ _ Hrun)
    as (s1 & t1 & s2 & t2 & t3 & _ & _ & Ht & Hrate & _).
  exists t1, t2, t3. auto.
Defined.


(** With a threshold the pruner of the instance leaves nothing, and the
    resample stops. *)
Lemma singleSample_collapse_witness :
  outcome (Toy.singleSample 0 1 (Toy.pruned "1")) = Throw collapseMessage.
Proof.
  eapply proj1.
  eapply (singleSample_collapse Toy.PyLM Toy.Rng Toy.PyLM_calcSentence Toy.PyLM_removeCustomers
             Toy.PyLM_getBasePositions Toy.LexFst Toy.LexFst_getWords
             Toy.LexFst_parseSample Toy.LazyFst Toy.ComposeLex Toy.PylmFst
             Toy.ComposePhi Toy.expand Toy.Prune Toy.SampGen Toy.WeightedMap
             Toy.ArcSortOLabel Toy.fstRead Toy.exp 0 1 (Toy.pruned "1")).
  - vm_compute. reflexivity.
  - vm_compute. reflexivity.
  - vm_compute. reflexivity.
  - vm_compute. discriminate.
Defined.

(** The two lines of the corpus hold tokens, and [loadText] returns. *)
Lemma loadText_lines_witness :
  exists perm, outcome (Toy.loadText Toy.loaded) = Ok perm.
Proof.
  pose proof (loadText_lines Toy.PyLM Toy.Rng Toy.PyLM_new Toy.LexFst Toy.LexFst_new
             Toy.LexFst_setSeparator Toy.LexFst_load Toy.LexFst_setPermSymbols
             Toy.LexFst_initializeArcs Toy.LexFst_getNumChars Toy.fileLines Toy.atoi
             Toy.atof Toy.loaded) as H.
  cbv zeta in H. destruct H as (_ & Hok & _).
  destruct Hok as (ids & Hrun & _).
  - assert (Hlines : flat_map (linesOf Toy.fileLines) (inputFiles_ Toy.loaded)
                     = ["a b"; "b c"]%string) by (vm_compute; reflexivity).
    rewrite Hlines.
    repeat (constructor; [intros Hnil; vm_compute in Hnil; discriminate Hnil|]).
    constructor.
  - exists (idList ids ++ ["w<s>"%string]). unfold runs in Hrun.
    rewrite Hrun. reflexivity.
Defined.


(** Without a threshold nothing is pruned in the resample of the first
    sentence of the corpus. *)
Lemma pruning_switch_witness :
  pruneThreshold_ Toy.loaded = 0%Q /\
  ((exists x, In (EvPrune x) (trace (Toy.singleSample 0 1 Toy.loaded))) <->
   ~ (pruneThreshold_ Toy.loaded == 0)%Q).
Proof.
  assert (Hold : runs (Toy.removeOld 0) Toy.loaded tt Toy.loaded [])
    by (vm_compute; reflexivity).
  assert (Hbuild : runs (Toy.buildFsts 0) Toy.loaded
                        (Toy.value Toy.noFsts (Toy.buildFsts 0 Toy.loaded)) Toy.loaded [])
    by (vm_compute; reflexivity).
  pose proof (pruning_switch Toy.PyLM Toy.Rng Toy.PyLM_new Toy.PyLM_calcSentence
             Toy.PyLM_removeCustomers Toy.PyLM_getBasePositions
             Toy.PyLM_sampleParameters Toy.PyLM_trim Toy.PyLM_getVocabSize Toy.PyLM_size
             Toy.PyLM_getN Toy.PyLM_getStrength Toy.PyLM_getDiscount Toy.LexFst
             Toy.LexFst_new Toy.LexFst_setSeparator Toy.LexFst_load
             Toy.LexFst_setPermSymbols Toy.LexFst_initializeArcs Toy.LexFst_getNumChars
             Toy.LexFst_getWords Toy.LexFst_getPermSymbols Toy.LexFst_getSymbols
             Toy.LexFst_addWord Toy.LexFst_parseSample Toy.LazyFst Toy.ComposeLex
             Toy.PylmFst Toy.ComposePhi Toy.expand Toy.Prune Toy.SampGen Toy.WeightedMap
             Toy.ArcSortOLabel Toy.fstRead Toy.exp 0 1 _ _ _ _ _ _ Hold Hbuild) as H.
  cbv zeta in H. split; [vm_compute; reflexivity | exact (proj1 H)].
Defined.

(** C8 as stated fails for a negative threshold: with [-prune -1] the
    composed transducer is pruned, though the threshold is not above 0. *)
Lemma pruning_negative_counterexample :
  pruneThreshold_ (Toy.pruned "-1") = (-1)%Q /\
  ~ (0 < pruneThreshold_ (Toy.pruned "-1"))%Q /\
  In (EvPrune (-1)) (trace (Toy.singleSample 0 1 (Toy.pruned "-1"))).
Proof.
  split; [vm_compute; reflexivity|]. split.
  - intros H. vm_compute in H. discriminate H.
  - vm_compute. left. reflexivity.
Qed.

(** The table of the corpus. *)
Lemma symbol_table_layout_witness :
  exists chars,
    outcome (Toy.loadText Toy.loaded)
    = Ok (["x<eps>"; "x<phi>"]%string ++ map (fun c => "x" +:+ c) chars ++ ["w<s>"%string]).
Proof.
  assert (Hrun : runs Toy.loadText Toy.loaded
                      (Toy.value [] (Toy.loadText Toy.loaded))
                      (final (Toy.loadText Toy.loaded)) (trace (Toy.loadText Toy.loaded)))
    by (vm_compute; reflexivity).
  destruct (proj1 (symbol_table_layout Toy.PyLM Toy.Rng Toy.LexFst Toy.fileLines) _ _ _ _ Hrun) as (chars & H).
  cbv zeta in H. destruct H as (Hperm & _).
  exists chars. rewrite <- Hperm. vm_compute. reflexivity.
Defined.


(** *** The further properties at the instance *)


(** The corpus with an annealing step length of 0. *)
Lemma train_zero_anneal_length_witness :
  outcome (Toy.train (set_annealStepLength_ 0 Toy.loaded)) = Undefined /\
  trace (Toy.train (set_annealStepLength_ 0 Toy.loaded)) = [].
Proof.
  apply (train_zero_anneal_length Toy.PyLM Toy.Rng Toy.PyLM_calcSentence
             Toy.PyLM_removeCustomers Toy.PyLM_getBasePositions
             Toy.PyLM_sampleParameters Toy.PyLM_trim Toy.PyLM_getVocabSize Toy.PyLM_size
             Toy.PyLM_getN Toy.PyLM_getStrength Toy.PyLM_getDiscount Toy.LexFst
             Toy.LexFst_new Toy.LexFst_setSeparator Toy.LexFst_setPermSymbols
             Toy.LexFst_initializeArcs Toy.LexFst_getWords Toy.LexFst_getPermSymbols
             Toy.LexFst_getSymbols Toy.LexFst_addWord Toy.LexFst_parseSample Toy.LazyFst
             Toy.ComposeLex Toy.PylmFst Toy.ComposePhi Toy.expand Toy.Prune Toy.SampGen
             Toy.WeightedMap Toy.ArcSortOLabel Toy.fstRead Toy.exp (set_annealStepLength_ 0 Toy.loaded)).
  - reflexivity.
  - vm_compute. discriminate.
Defined.

(** One state with an arc to itself. *)
Lemma addLikelihood_cycle_witness :
  outcome (Toy.addLikelihood (mkFst 0 [mkFstState None [mkArc 1 1 0 0]]) Toy.initial)
  = Diverge.
Proof.
  apply (addLikelihood_cycle Toy.PyLM Toy.Rng Toy.LexFst (mkFst 0 [mkFstState None [mkArc 1 1 0 0]]) Toy.initial).
  - constructor; [|constructor].
    exists (mkArc 1 1 0 0), []. split; [reflexivity|]. unfold NumStates, sizeZ. simpl. lia.
  - unfold NumStates, sizeZ. simpl. lia.
Defined.


(** The word bases of the lexicon after one resample. *)
Lemma calculateWordBases_scores_witness :
  exists lex,
    lexFst_ Toy.sampled = Some lex /\
    List.length (Toy.value [] (Toy.calculateWordBases Toy.sampled))
    = List.length (Toy.LexFst_getWords lex).
Proof.
  assert (Hrun : runs Toy.calculateWordBases Toy.sampled
                      (Toy.value [] (Toy.calculateWordBases Toy.sampled))
                      (final (Toy.calculateWordBases Toy.sampled))
                      (trace (Toy.calculateWordBases Toy.sampled)))
    by (vm_compute; reflexivity).
  destruct (calculateWordBases_scores Toy.PyLM Toy.Rng Toy.PyLM_calcSentence Toy.LexFst
             Toy.LexFst_getWords Toy.exp _ _ _ _ Hrun) as (lex & Hlex & Hlen & _).
  exists lex. auto.
Defined.

(** An option behind the first file name is a file name. *)
Lemma parseOptions_stops_at_file_witness :
  outcome (Toy.parseOptions ["-samps"; "1"; "corpus.txt"; "-burnin"; "0"]%string Toy.initial)
  = Ok ["corpus.txt"; "-burnin"; "0"]%string /\
  trace (Toy.parseOptions ["-samps"; "1"; "corpus.txt"; "-burnin"; "0"]%string Toy.initial) = [].
Proof.
  apply (parseOptions_stops_at_file Toy.PyLM Toy.Rng Toy.LexFst Toy.atoi Toy.atof ["-samps"; "1"]%string "corpus.txt"%string
           ["-burnin"; "0"]%string Toy.initial).
  - eapply (prefix_value Toy.PyLM Toy.Rng Toy.LexFst Toy.atoi Toy.atof "-samps"%string "1"%string []).
    + reflexivity.
    + reflexivity.
    + intros H. discriminate H.
    + apply (prefix_nil Toy.PyLM Toy.Rng Toy.LexFst Toy.atoi Toy.atof).
  - reflexivity.
Defined.

(** A list that names the corpus, and an argument that names nothing. *)
Lemma fileList_overrides_witness :
  Toy.loadInputFiles ["nothing.txt"%string]
    (set_inputFileList_ (Some "files.txt"%string) Toy.initial)
  = mkResult (Ok tt)
      (set_inputFiles_
         (inputFiles_ (set_inputFileList_ (Some "files.txt"%string) Toy.initial)
          ++ ["corpus.txt"%string])
         (set_inputFileList_ (Some "files.txt"%string) Toy.initial))
      [].
Proof.
  apply (proj2 (fileList_overrides Toy.PyLM Toy.Rng Toy.LexFst Toy.fileLines ["nothing.txt"%string]
                  (set_inputFileList_ (Some "files.txt"%string) Toy.initial)
                  "files.txt"%string eq_refl)
           ["corpus.txt"%string]).
  - reflexivity.
  - reflexivity.
Defined.

(** The lattice read without the cache. *)
Lemma createInputFst_uncached_witness :
  final (Toy.createInputFst 0 (set_inputFiles_ ["lat.fst"%string] Toy.initial))
  = set_inputFiles_ ["lat.fst"%string] Toy.initial /\
  trace (Toy.createInputFst 0 (set_inputFiles_ ["lat.fst"%string] Toy.initial))
  = [EvFstRead "lat.fst"; EvMap (2 # 10) "lat.fst"].
Proof.
  assert (Hrun : runs (Toy.createInputFst 0) (set_inputFiles_ ["lat.fst"%string] Toy.initial)
                   (Toy.value emptyFst
                      (Toy.createInputFst 0 (set_inputFiles_ ["lat.fst"%string] Toy.initial)))
                   (final (Toy.createInputFst 0 (set_inputFiles_ ["lat.fst"%string] Toy.initial)))
                   (trace (Toy.createInputFst 0 (set_inputFiles_ ["lat.fst"%string] Toy.initial))))
    by (vm_compute; reflexivity).
  assert (Hoff : cacheInput_ (set_inputFiles_ ["lat.fst"%string] Toy.initial) = false)
    by reflexivity.
  destruct (createInputFst_uncached Toy.PyLM Toy.Rng Toy.LexFst Toy.WeightedMap Toy.ArcSortOLabel
             Toy.fstRead 0 _ _ _ _ Hoff Hrun)
    as (Hsame & file & nextFst & Hfile & _ & _ & Htrace).
  split; [exact Hsame|].
  rewrite Htrace. vm_compute in Hfile. injection Hfile as <-. reflexivity.
Defined.

(** The characters of the corpus. *)
Lemma charIds_distinguish_witness :
  (charId (idsAfterLines ["a b"; "b c"]%string initialIds) "a"
   = charId (idsAfterLines ["a b"; "b c"]%string initialIds) "c"
   <-> "a"%string = "c"%string) /\
  (charId (idsAfterLines ["a b"; "b c"]%string initialIds) "a" = 0
   <-> "a"%string = "<eps>"%string).
Proof.
  apply (charIds_distinguish ["a b"; "b c"]%string "a b"%string "b c"%string
           "a"%string "c"%string).
  - vm_compute. discriminate.
  - left. reflexivity.
  - left. reflexivity.
  - right. left. reflexivity.
  - right. left. reflexivity.
Defined.

(** The trainer after the options of the run on the corpus. *)
Lemma loadProperties_ready_witness :
  List.length (histories_ Toy.loaded) = List.length (inputFsts_ Toy.loaded) /\
  List.length (unkBases_ Toy.loaded) = MAX_WORD_LEN.
Proof.
  assert (Hload : runs (Toy.loadProperties Toy.textArgs) Toy.initial tt Toy.loaded
                       (trace (Toy.loadProperties Toy.textArgs Toy.initial)))
    by (vm_compute; reflexivity).
  destruct (loadProperties_ready Toy.PyLM Toy.Rng Toy.PyLM_new Toy.LexFst Toy.LexFst_new
             Toy.LexFst_setSeparator Toy.LexFst_load Toy.LexFst_setPermSymbols
             Toy.LexFst_initializeArcs Toy.LexFst_getNumChars Toy.fileLines Toy.atoi
             Toy.atof _ _ _ _ Hload) as (_ & _ & _ & _ & _ & Hh & Hb).
  auto.
Defined.
